(** * Wi-Fi network monitor on FreeRTOS (GS_2semestre_STR.c)

    A shallow embedding of the four tasks of the monitor (ScannerTask,
    CheckerTask, LoggerTask, SupervisorTask), of the registry lookup
    [is_secure_network] and of the start-up code [app_main], together with
    the properties of the design document that can be stated over it.

    Conventions of the embedding:
    - a [char] is a [byte]; a [char] array is a [list byte] of the array's
      size; a [const char *] is the list of bytes found from the pointer on,
      read up to the first NUL (the end of the list reads as NUL);
    - a string read at an array is read within the array: what [strcmp] or
      [%s] would read past an array that holds no terminator is not
      modelled, and the model reads such an array to its end. An [ssid]
      array without terminator has 32 characters or more either way, so it
      is no entry of the registry in the model as in the program; the text
      built from it is not the same, and the properties that give the text
      of a record say for which events they do;
    - an [int] is a [Z] kept in the 32-bit two's complement range by
      [wrap_int];
    - the FreeRTOS objects (two queues, one mutex), the locals of each task
      and a history of the RTOS calls made so far form the state [Sys];
      each task body is a command of the monad [M], which threads [Sys] and
      yields [None] when the calling task cannot go on (it is blocked on a
      queue or a mutex with [portMAX_DELAY]);
    - the read of [demoSSIDs[idx % 6]] is not checked by the code and is
      not a stop in the model either: with a negative index it finds
      whatever the memory holds there, which is an input of the model
      ([ScannerLocals.stray]); the other array of pointers,
      [secureNetworks], is only read at the indices 0 to 4;
    - one iteration of the [while (1)] loop of a task is one command, and an
      execution of the system is a list of task identities, each standing
      for one iteration of that task's loop. *)

From Stdlib Require Import ZArith List Bool Lia.
From Stdlib Require Import Strings.Byte Strings.String.
Import ListNotations.
Local Open Scope Z_scope.

(** ** C strings *)

Definition NUL : byte := x00.

(** The string literal [s] as the bytes the compiler stores (without the
    terminator, which the end of the list stands for). *)
Definition lit (s : string) : list byte := list_byte_of_string s.

(** What a [const char *] pointing at [p] denotes: the bytes before the
    first NUL. For a string literal the end of the list is its terminator;
    for an array it is the end of the array. *)
Fixpoint c_str (p : list byte) : list byte :=
  match p with
  | [] => []
  | c :: p' => if Byte.eqb c NUL then [] else c :: c_str p'
  end.

Definition strlen (p : list byte) : nat := List.length (c_str p).

Definition uchar (c : byte) : Z := Z.of_N (Byte.to_N c).

(** [strcmp]: compares as [unsigned char], stops at the first difference or
    at the terminator. *)
Fixpoint strcmp (s1 s2 : list byte) : Z :=
  let c1 := hd NUL s1 in
  let c2 := hd NUL s2 in
  if Byte.eqb c1 c2 then
    if Byte.eqb c1 NUL then 0
    else match s1 with
         | [] => 0
         | _ :: t1 => strcmp t1 (tl s2)
         end
  else uchar c1 - uchar c2.

(** [strncpy(dest, src, n)]: the [n] bytes written to [dest]. Copies at most
    [n] characters of [src]; when [src] is shorter the rest is filled with
    NUL; when it is not, no terminator is written. *)
Fixpoint strncpy (src : list byte) (n : nat) {struct n} : list byte :=
  match n with
  | O => []
  | S n' =>
      match src with
      | [] => repeat NUL (S n')
      | c :: src' =>
          if Byte.eqb c NUL then repeat NUL (S n') else c :: strncpy src' n'
      end
  end.

(** ** The C [int] *)

Definition INT_MAX : Z := 2147483647.
Definition INT_MIN : Z := -2147483648.

Definition wrap_int (z : Z) : Z := (z + 2 ^ 31) mod 2 ^ 32 - 2 ^ 31.

(** [x++] on an [int]. *)
Definition int_incr (x : Z) : Z := wrap_int (x + 1).

(** C's [%]: the remainder of the division that truncates toward zero. *)
Definition int_rem (a b : Z) : Z := Z.rem a b.

(** ** [snprintf] with the conversions the program uses *)

Inductive vararg : Type :=
| arg_str (p : list byte)
| arg_int (n : Z).

Definition digit (d : Z) : byte :=
  match Byte.of_N (Z.to_N (48 + d)) with
  | Some b => b
  | None => NUL
  end.

(** Decimal digits of a non-negative number, most significant first; an
    [int] has at most ten. *)
Fixpoint utoa (fuel : nat) (n : Z) (acc : list byte) : list byte :=
  match fuel with
  | O => acc
  | S fuel' =>
      let acc' := digit (n mod 10) :: acc in
      if n / 10 =? 0 then acc' else utoa fuel' (n / 10) acc'
  end.

(** [%d] *)
Definition itoa (n : Z) : list byte :=
  if n <? 0 then lit "-" ++ utoa 10 (- n) [] else utoa 10 n [].

Definition percent : byte := "%"%byte.

(** The text a format produces, before any truncation. A conversion whose
    argument is missing or of the wrong kind produces nothing. *)
Fixpoint format (fmt : list byte) (args : list vararg) : list byte :=
  match fmt with
  | [] => []
  | c :: fmt' =>
      if Byte.eqb c percent then
        match fmt' with
        | [] => [c]
        | d :: fmt'' =>
            if Byte.eqb d "s"%byte then
              match args with
              | arg_str p :: args' => c_str p ++ format fmt'' args'
              | _ => format fmt'' (tl args)
              end
            else if Byte.eqb d "d"%byte then
              match args with
              | arg_int n :: args' => itoa n ++ format fmt'' args'
              | _ => format fmt'' (tl args)
              end
            else c :: d :: format fmt'' args
        end
      else c :: format fmt' args
  end.

(** [snprintf(dest, size, fmt, ...)]: the new contents of [dest]. At most
    [size - 1] characters of the text are stored, then the terminator; the
    bytes of [dest] after the terminator keep their old value. *)
Definition snprintf (dest : list byte) (size : nat) (fmt : list byte)
    (args : list vararg) : list byte :=
  match size with
  | O => dest
  | S m =>
      let text := firstn m (format fmt args) in
      text ++ NUL :: skipn (S (List.length text)) dest
  end.

(** An automatic array that was never written: [n] bytes of whatever the
    stack held. *)
Definition uninitialized (n : nat) (junk : list byte) : list byte :=
  firstn n (junk ++ repeat NUL n).

(** ** Data model *)

Definition MAX_SSIDS : nat := 5.
Definition LOG_QUEUE_SIZE : nat := 10.
Definition SSID_QUEUE_SIZE : nat := 10.

Definition SSID_SIZE : nat := 32.
Definition MESSAGE_SIZE : nat := 128.

Record SSID_t : Type := mkSSID { ssid : list byte }.
Record LogMessage_t : Type := mkLogMessage { message : list byte }.

Definition secureNetworks : list (list byte) :=
  [ lit "IoT_Secure"; lit "LabNet_Protected"; lit "HomeNet_5G";
    lit "OfficeNet"; lit "GuestNet" ].

Definition demoSSIDs : list (list byte) :=
  [ lit "IoT_Secure"; lit "EvilTwin"; lit "RandomAP";
    lit "LabNet_Protected"; lit "Unknown_AP"; lit "HomeNet_5G" ].

Definition FMT_OK : list byte :=
  lit "{Checker} [OK] Rede segura detectada: %s".

(** The accented letter of the source is the two bytes C3 83 of its UTF-8
    encoding. *)
Definition FMT_ALERTA : list byte :=
  lit "{Checker} [ALERTA] Rede N" ++ [xc3; x83]
  ++ lit "O autorizada detectada: %s (cont=%d)".

(** ** FreeRTOS objects *)

Inductive TaskId : Type := Main | Scanner | Checker | Logger | Supervisor.

Definition TaskId_eqb (a b : TaskId) : bool :=
  match a, b with
  | Main, Main | Scanner, Scanner | Checker, Checker
  | Logger, Logger | Supervisor, Supervisor => true
  | _, _ => false
  end.

Inductive TickType_t : Type :=
| pdMS_TO_TICKS (ms : Z)
| portMAX_DELAY.

Inductive BaseType_t : Type := pdPASS | errQUEUE_FULL.

Record Queue (T : Type) : Type := mkQueue {
  uxLength : nat;
  items : list T
}.
Arguments mkQueue {T} _ _.
Arguments uxLength {T} _.
Arguments items {T} _.

Definition xQueueCreate {T : Type} (uxQueueLength : nat) : Queue T :=
  mkQueue uxQueueLength [].

Definition queue_full {T : Type} (q : Queue T) : bool :=
  (uxLength q <=? List.length (items q))%nat.

(** The arguments of one [xTaskCreate]. *)
Record TaskCreate : Type := mkTaskCreate {
  pvTaskCode : TaskId;
  pcName : list byte;
  usStackDepth : Z;
  uxPriority : Z
}.

(** One call of the RTOS, of the watchdog or of the C library, as the
    history keeps it. *)
Inductive Event : Type :=
| SemaphoreTake (xTicksToWait : TickType_t)
| SemaphoreGive
| RegistryRead (i : nat) (holder : option TaskId)
| QueueSend_ssid (item : SSID_t) (xTicksToWait : TickType_t) (r : BaseType_t)
| QueueSend_log (item : LogMessage_t) (xTicksToWait : TickType_t)
    (r : BaseType_t)
| QueueReceive_ssid (item : SSID_t) (xTicksToWait : TickType_t)
| QueueReceive_log (item : LogMessage_t) (xTicksToWait : TickType_t)
| TaskCreated (c : TaskCreate)
| WdtInit (timeout_s : Z) (panic : bool)
| WdtAdd
| WdtReset
| TaskDelay (xTicksToDelay : TickType_t)
| Printf (out : list byte).

(** The frame of [ScannerTask]. Besides the two variables it holds what
    surrounds the array [demoSSIDs]: [stray i] is the string at the address
    a read of [demoSSIDs[idx % 6]] finds when [idx = i] takes it outside the
    array. The program never writes it; it is indexed by [idx], so that
    each iteration may find something else. *)
Module ScannerLocals.
Record t : Type := mk {
  ssidData : SSID_t;
  idx : Z;
  stray : Z -> list byte
}.
End ScannerLocals.

Module CheckerLocals.
Record t : Type := mk {
  ssidData : SSID_t;
  logMsg : LogMessage_t;
  alertCounter : Z          (* static *)
}.
End CheckerLocals.

Module LoggerLocals.
Record t : Type := mk { logMsg : LogMessage_t }.
End LoggerLocals.

Record Sys : Type := mkSys {
  ssidQueue : Queue SSID_t;
  logQueue : Queue LogMessage_t;
  secureListMutex : option TaskId;      (* the holder, if taken *)
  pxCurrentTCB : TaskId;                (* the running task *)
  scanner : ScannerLocals.t;
  checker : CheckerLocals.t;
  logger : LoggerLocals.t;
  trace : list (TaskId * Event)         (* oldest first *)
}.

Definition set_ssidQueue (q : Queue SSID_t) (s : Sys) : Sys :=
  mkSys q (logQueue s) (secureListMutex s) (pxCurrentTCB s) (scanner s)
    (checker s) (logger s) (trace s).

Definition set_logQueue (q : Queue LogMessage_t) (s : Sys) : Sys :=
  mkSys (ssidQueue s) q (secureListMutex s) (pxCurrentTCB s) (scanner s)
    (checker s) (logger s) (trace s).

Definition set_secureListMutex (m : option TaskId) (s : Sys) : Sys :=
  mkSys (ssidQueue s) (logQueue s) m (pxCurrentTCB s) (scanner s)
    (checker s) (logger s) (trace s).

Definition set_pxCurrentTCB (t : TaskId) (s : Sys) : Sys :=
  mkSys (ssidQueue s) (logQueue s) (secureListMutex s) t (scanner s)
    (checker s) (logger s) (trace s).

Definition set_scanner (l : ScannerLocals.t) (s : Sys) : Sys :=
  mkSys (ssidQueue s) (logQueue s) (secureListMutex s) (pxCurrentTCB s) l
    (checker s) (logger s) (trace s).

Definition set_checker (l : CheckerLocals.t) (s : Sys) : Sys :=
  mkSys (ssidQueue s) (logQueue s) (secureListMutex s) (pxCurrentTCB s)
    (scanner s) l (logger s) (trace s).

Definition set_logger (l : LoggerLocals.t) (s : Sys) : Sys :=
  mkSys (ssidQueue s) (logQueue s) (secureListMutex s) (pxCurrentTCB s)
    (scanner s) (checker s) l (trace s).

Definition set_trace (tr : list (TaskId * Event)) (s : Sys) : Sys :=
  mkSys (ssidQueue s) (logQueue s) (secureListMutex s) (pxCurrentTCB s)
    (scanner s) (checker s) (logger s) tr.

(** ** The monad of task code *)

Definition M (A : Type) : Type := Sys -> option (A * Sys).

Definition ret {A : Type} (a : A) : M A := fun s => Some (a, s).

Definition bind {A B : Type} (m : M A) (k : A -> M B) : M B :=
  fun s =>
    match m s with
    | Some (a, s') => k a s'
    | None => None
    end.

(** The task cannot go on. *)
Definition stuck {A : Type} : M A := fun _ => None.

Definition gets {A : Type} (f : Sys -> A) : M A := fun s => Some (f s, s).

Definition modify (f : Sys -> Sys) : M unit := fun s => Some (tt, f s).

Declare Scope task_scope.
Delimit Scope task_scope with task.
Notation "x <- m ;; k" := (bind m (fun x => k))
  (at level 61, m at next level, right associativity) : task_scope.
Notation "m ;; k" := (bind m (fun _ => k))
  (at level 61, right associativity) : task_scope.
Local Open Scope task_scope.

(** Appends a call of the running task to the history. *)
Definition emit (e : Event) : M unit :=
  modify (fun s => set_trace (trace s ++ [(pxCurrentTCB s, e)]) s).

(** ** RTOS and watchdog calls *)

(** On a mutex that is taken the caller blocks; with [portMAX_DELAY] it
    does not come back until the mutex is given. *)
Definition xSemaphoreTake (xTicksToWait : TickType_t) : M BaseType_t :=
  holder <- gets secureListMutex ;;
  match holder with
  | None =>
      me <- gets pxCurrentTCB ;;
      modify (set_secureListMutex (Some me)) ;;
      emit (SemaphoreTake xTicksToWait) ;;
      ret pdPASS
  | Some _ =>
      match xTicksToWait with
      | portMAX_DELAY => stuck
      | pdMS_TO_TICKS _ =>
          emit (SemaphoreTake xTicksToWait) ;; ret errQUEUE_FULL
      end
  end.

Definition xSemaphoreGive : M BaseType_t :=
  modify (set_secureListMutex None) ;;
  emit SemaphoreGive ;;
  ret pdPASS.

(** [xQueueSend(ssidQueue, item, wait)]: a queue that stays full for the
    whole wait makes the call fail; [portMAX_DELAY] waits for room. *)
Definition xQueueSend_ssid (item : SSID_t) (xTicksToWait : TickType_t)
    : M BaseType_t :=
  q <- gets ssidQueue ;;
  if queue_full q then
    match xTicksToWait with
    | portMAX_DELAY => stuck
    | pdMS_TO_TICKS _ =>
        emit (QueueSend_ssid item xTicksToWait errQUEUE_FULL) ;;
        ret errQUEUE_FULL
    end
  else
    modify (set_ssidQueue (mkQueue (uxLength q) (items q ++ [item]))) ;;
    emit (QueueSend_ssid item xTicksToWait pdPASS) ;;
    ret pdPASS.

Definition xQueueSend_log (item : LogMessage_t) (xTicksToWait : TickType_t)
    : M BaseType_t :=
  q <- gets logQueue ;;
  if queue_full q then
    match xTicksToWait with
    | portMAX_DELAY => stuck
    | pdMS_TO_TICKS _ =>
        emit (QueueSend_log item xTicksToWait errQUEUE_FULL) ;;
        ret errQUEUE_FULL
    end
  else
    modify (set_logQueue (mkQueue (uxLength q) (items q ++ [item]))) ;;
    emit (QueueSend_log item xTicksToWait pdPASS) ;;
    ret pdPASS.

(** [xQueueReceive(ssidQueue, &item, portMAX_DELAY)]: blocks while the
    queue is empty, so it only ever returns with an item. With a finite
    wait an empty queue gives no item. *)
Definition xQueueReceive_ssid (xTicksToWait : TickType_t)
    : M (option SSID_t) :=
  q <- gets ssidQueue ;;
  match items q with
  | [] =>
      match xTicksToWait with
      | portMAX_DELAY => stuck
      | pdMS_TO_TICKS _ => ret None
      end
  | item :: rest =>
      modify (set_ssidQueue (mkQueue (uxLength q) rest)) ;;
      emit (QueueReceive_ssid item xTicksToWait) ;;
      ret (Some item)
  end.

Definition xQueueReceive_log (xTicksToWait : TickType_t)
    : M (option LogMessage_t) :=
  q <- gets logQueue ;;
  match items q with
  | [] =>
      match xTicksToWait with
      | portMAX_DELAY => stuck
      | pdMS_TO_TICKS _ => ret None
      end
  | item :: rest =>
      modify (set_logQueue (mkQueue (uxLength q) rest)) ;;
      emit (QueueReceive_log item xTicksToWait) ;;
      ret (Some item)
  end.

Definition esp_task_wdt_add : M unit := emit WdtAdd.
Definition esp_task_wdt_reset : M unit := emit WdtReset.
Definition vTaskDelay (xTicksToDelay : TickType_t) : M unit :=
  emit (TaskDelay xTicksToDelay).

(** ** [is_secure_network] *)

(** [secureNetworks[i]]; the history keeps who held the mutex at the read.
    The loop below calls it with [i] from 0 to 4 only. *)
Definition read_secureNetworks (i : nat) : M (list byte) :=
  holder <- gets secureListMutex ;;
  emit (RegistryRead i holder) ;;
  match nth_error secureNetworks i with
  | Some e => ret e
  | None => stuck
  end.

(** The [for] loop, entered with counter [i] and [n] iterations left before
    [i < MAX_SSIDS] fails; [break] leaves it with [result = 1]. *)
Fixpoint is_secure_network_loop (ssid : list byte) (i n : nat) (result : Z)
    : M Z :=
  match n with
  | O => ret result
  | S n' =>
      e <- read_secureNetworks i ;;
      if strcmp ssid e =? 0 then ret 1
      else is_secure_network_loop ssid (S i) n' result
  end.

Definition is_secure_network (ssid : list byte) : M Z :=
  xSemaphoreTake portMAX_DELAY ;;
  result <- is_secure_network_loop ssid 0 MAX_SSIDS 0 ;;
  xSemaphoreGive ;;
  ret result.

(** ** The tasks *)

(** [a[i]] for an [int] index; [None] outside the array. *)
Definition array_get {A : Type} (a : list A) (i : Z) : option A :=
  if i <? 0 then None else nth_error a (Z.to_nat i).

(** [demoSSIDs[idx % 6]]: the source does not check the index, which is
    negative once [idx] is; the read then finds [stray idx]. *)
Definition demoSSIDs_at (stray : Z -> list byte) (idx : Z) : list byte :=
  match array_get demoSSIDs (int_rem idx 6) with
  | Some src => src
  | None => stray idx
  end.

Definition update_scanner (f : ScannerLocals.t -> ScannerLocals.t) : M unit :=
  modify (fun s => set_scanner (f (scanner s)) s).

Definition update_checker (f : CheckerLocals.t -> CheckerLocals.t) : M unit :=
  modify (fun s => set_checker (f (checker s)) s).

Definition update_logger (f : LoggerLocals.t -> LoggerLocals.t) : M unit :=
  modify (fun s => set_logger (f (logger s)) s).

(** One iteration of the loop of [ScannerTask]. The value [xQueueSend]
    returns is not looked at. *)
Definition ScannerTask_cycle : M unit :=
  l <- gets scanner ;;
  let src := demoSSIDs_at (ScannerLocals.stray l) (ScannerLocals.idx l) in
  let ssidData := mkSSID (strncpy src SSID_SIZE) in
  update_scanner (fun l =>
    ScannerLocals.mk ssidData (ScannerLocals.idx l) (ScannerLocals.stray l)) ;;
  xQueueSend_ssid ssidData (pdMS_TO_TICKS 50) ;;
  update_scanner (fun l =>
    ScannerLocals.mk (ScannerLocals.ssidData l)
      (int_incr (ScannerLocals.idx l)) (ScannerLocals.stray l)) ;;
  vTaskDelay (pdMS_TO_TICKS 500).

(** The two branches of the [if] of [CheckerTask]. *)
Definition CheckerTask_format_ok (l : CheckerLocals.t) : CheckerLocals.t :=
  CheckerLocals.mk (CheckerLocals.ssidData l)
    (mkLogMessage
       (snprintf (message (CheckerLocals.logMsg l)) MESSAGE_SIZE FMT_OK
          [arg_str (ssid (CheckerLocals.ssidData l))]))
    (CheckerLocals.alertCounter l).

Definition CheckerTask_format_alert (l : CheckerLocals.t) : CheckerLocals.t :=
  let alertCounter := int_incr (CheckerLocals.alertCounter l) in
  CheckerLocals.mk (CheckerLocals.ssidData l)
    (mkLogMessage
       (snprintf (message (CheckerLocals.logMsg l)) MESSAGE_SIZE FMT_ALERTA
          [arg_str (ssid (CheckerLocals.ssidData l)); arg_int alertCounter]))
    alertCounter.

(** One iteration of the loop of [CheckerTask]. *)
Definition CheckerTask_cycle : M unit :=
  r <- xQueueReceive_ssid portMAX_DELAY ;;
  match r with
  | None => ret tt
  | Some item =>
      update_checker (fun l =>
        CheckerLocals.mk item (CheckerLocals.logMsg l)
          (CheckerLocals.alertCounter l)) ;;
      secure <- is_secure_network (ssid item) ;;
      update_checker
        (if secure =? 0 then CheckerTask_format_alert
         else CheckerTask_format_ok) ;;
      l <- gets checker ;;
      xQueueSend_log (CheckerLocals.logMsg l) (pdMS_TO_TICKS 50) ;;
      esp_task_wdt_reset ;;
      vTaskDelay (pdMS_TO_TICKS 5)
  end.

(** What [CheckerTask] does before its loop. *)
Definition CheckerTask_entry : M unit := esp_task_wdt_add.

Definition printf (fmt : list byte) (args : list vararg) : M unit :=
  emit (Printf (format fmt args)).

(** One iteration of the loop of [LoggerTask]. *)
Definition LoggerTask_cycle : M unit :=
  r <- xQueueReceive_log portMAX_DELAY ;;
  match r with
  | None => ret tt
  | Some item =>
      update_logger (fun _ => LoggerLocals.mk item) ;;
      printf (lit "%s" ++ [x0a]) [arg_str (message item)]
  end.

(** One iteration of the loop of [SupervisorTask]. *)
Definition SupervisorTask_cycle : M unit :=
  vTaskDelay (pdMS_TO_TICKS 1000).

(** ** Start-up *)

(** The four [xTaskCreate] calls of [app_main], in order. *)
Definition app_main_tasks : list TaskCreate :=
  [ mkTaskCreate Scanner (lit "ScannerTask") 2048 1;
    mkTaskCreate Checker (lit "CheckerTask") 4096 2;
    mkTaskCreate Logger (lit "LoggerTask") 2048 3;
    mkTaskCreate Supervisor (lit "SupervisorTask") 2048 2 ].

Definition priority_of (t : TaskId) : option Z :=
  option_map uxPriority
    (find (fun c => TaskId_eqb (pvTaskCode c) t) app_main_tasks).

(** FreeRTOS runs the ready task with the numerically greatest
    [uxPriority]: [a] preempts [b] when its number is strictly greater. *)
Definition preempts (a b : TaskId) : bool :=
  match priority_of a, priority_of b with
  | Some pa, Some pb => pb <? pa
  | _, _ => false
  end.

(** What the stacks hold where the tasks declare their arrays, and what
    surrounds [demoSSIDs] on the stack of [ScannerTask]. *)
Record Garbage : Type := mkStacks {
  scanner_ssidData : list byte;
  checker_ssidData : list byte;
  checker_logMsg : list byte;
  logger_logMsg : list byte;
  scanner_stray : Z -> list byte
}.

(** Stacks on which every word around [demoSSIDs] points at an empty
    string. *)
Definition mkGarbage (scanner_ssidData checker_ssidData checker_logMsg
    logger_logMsg : list byte) : Garbage :=
  mkStacks scanner_ssidData checker_ssidData checker_logMsg logger_logMsg
    (fun _ => []).

(** The state [app_main] leaves: both queues and the mutex created, the
    watchdog started with a timeout of 5 s, the main task registered with
    it, the four tasks created. The variables the tasks initialise where
    they declare them ([idx] and the static [alertCounter]) hold their
    initial value 0; the arrays hold what the stacks held. *)
Definition app_main (g : Garbage) : Sys :=
  mkSys (xQueueCreate SSID_QUEUE_SIZE) (xQueueCreate LOG_QUEUE_SIZE) None Main
    (ScannerLocals.mk
       (mkSSID (uninitialized SSID_SIZE (scanner_ssidData g))) 0
       (scanner_stray g))
    (CheckerLocals.mk
       (mkSSID (uninitialized SSID_SIZE (checker_ssidData g)))
       (mkLogMessage (uninitialized MESSAGE_SIZE (checker_logMsg g))) 0)
    (LoggerLocals.mk
       (mkLogMessage (uninitialized MESSAGE_SIZE (logger_logMsg g))))
    ((Main, WdtInit 5 true) :: (Main, WdtAdd)
       :: map (fun c => (Main, TaskCreated c)) app_main_tasks).

(** ** Executions *)

Definition task_cycle (t : TaskId) : M unit :=
  match t with
  | Main => stuck                 (* [app_main] has returned *)
  | Scanner => ScannerTask_cycle
  | Checker => CheckerTask_cycle
  | Logger => LoggerTask_cycle
  | Supervisor => SupervisorTask_cycle
  end.

(** The scheduler switches to [t], which runs one iteration of its loop. *)
Definition dispatch (t : TaskId) : M unit :=
  modify (set_pxCurrentTCB t) ;; task_cycle t.

Definition final {A : Type} (r : option (A * Sys)) : option Sys :=
  option_map snd r.

Fixpoint exec (sched : list TaskId) (s : Sys) : option Sys :=
  match sched with
  | [] => Some s
  | t :: sched' =>
      match final (dispatch t s) with
      | Some s' => exec sched' s'
      | None => None
      end
  end.

(** The state when every task has reached its loop: [CheckerTask] has run
    its registration with the watchdog. *)
Definition boot (g : Garbage) : Sys :=
  match
    (modify (set_pxCurrentTCB Checker) ;; CheckerTask_entry) (app_main g)
  with
  | Some (_, s) => s
  | None => app_main g
  end.

(** ** What the history says *)

(** The entries of the history that [f] selects, in order. *)
Definition collect {A : Type} (f : TaskId * Event -> option A)
    (tr : list (TaskId * Event)) : list A :=
  flat_map (fun te => match f te with Some a => [a] | None => [] end) tr.

(** The events [ScannerTask] built, in order, with the outcome of each
    send. *)
Definition scanner_sends
    : list (TaskId * Event) -> list (SSID_t * BaseType_t) :=
  collect (fun te =>
    match snd te with
    | QueueSend_ssid item _ r => Some (item, r)
    | _ => None
    end).

(** The events that entered the event queue. *)
Definition enqueued_ssids : list (TaskId * Event) -> list SSID_t :=
  collect (fun te =>
    match snd te with
    | QueueSend_ssid item _ pdPASS => Some item
    | _ => None
    end).

(** The events [CheckerTask] took from the event queue. *)
Definition received_ssids : list (TaskId * Event) -> list SSID_t :=
  collect (fun te =>
    match snd te with
    | QueueReceive_ssid item _ => Some item
    | _ => None
    end).

(** The records [CheckerTask] built, in order, with the outcome of each
    send. *)
Definition checker_sends
    : list (TaskId * Event) -> list (LogMessage_t * BaseType_t) :=
  collect (fun te =>
    match snd te with
    | QueueSend_log item _ r => Some (item, r)
    | _ => None
    end).

(** The records that entered the log queue. *)
Definition enqueued_logs : list (TaskId * Event) -> list LogMessage_t :=
  collect (fun te =>
    match snd te with
    | QueueSend_log item _ pdPASS => Some item
    | _ => None
    end).

(** The records [LoggerTask] took from the log queue. *)
Definition received_logs : list (TaskId * Event) -> list LogMessage_t :=
  collect (fun te =>
    match snd te with
    | QueueReceive_log item _ => Some item
    | _ => None
    end).

(** The watchdog refreshes of task [t]. *)
Definition wdt_resets (t : TaskId) : list (TaskId * Event) -> list unit :=
  collect (fun te =>
    match snd te with
    | WdtReset => if TaskId_eqb (fst te) t then Some tt else None
    | _ => None
    end).

(** The registry reads, each with its reader and the holder of the mutex at
    the time. *)
Definition registry_accesses
    : list (TaskId * Event) -> list (TaskId * option TaskId) :=
  collect (fun te =>
    match snd te with
    | RegistryRead _ holder => Some (fst te, holder)
    | _ => None
    end).

(** The sleeps of task [t]. *)
Definition delays (t : TaskId) : list (TaskId * Event) -> list TickType_t :=
  collect (fun te =>
    match snd te with
    | TaskDelay d => if TaskId_eqb (fst te) t then Some d else None
    | _ => None
    end).

(** How many iterations of [t] the schedule holds. *)
Definition cycles (t : TaskId) (sched : list TaskId) : nat :=
  List.length (filter (TaskId_eqb t) sched).

(** ** Vocabulary of the statements *)

(** The state after the running task made the calls [evs]. *)
Definition log_events (evs : list Event) (s : Sys) : Sys :=
  set_trace (trace s ++ map (pair (pxCurrentTCB s)) evs) s.

(** What an execution from [s] to [s'] added to the history. *)
Definition new_events (s s' : Sys) : list (TaskId * Event) :=
  skipn (List.length (trace s)) (trace s').

(** The number of entries the scan of [registry] reads: up to and including
    the first entry equal to [p], or all of them. *)
Fixpoint scan_reads (p : list byte) (registry : list (list byte)) : nat :=
  match registry with
  | [] => O
  | e :: registry' =>
      if strcmp p e =? 0 then 1%nat else S (scan_reads p registry')
  end.

(** The reads of one call of [is_secure_network] by task [me]. *)
Definition registry_reads (me : TaskId) (p : list byte) : list Event :=
  map (fun i => RegistryRead i (Some me)) (seq 0 (scan_reads p secureNetworks)).

(** The test of the loop of [is_secure_network] on entry [e]. *)
Definition matches (p : list byte) (e : list byte) : bool := strcmp p e =? 0.

Definition bytes_eq_dec (a b : list byte) : {a = b} + {a <> b} :=
  list_eq_dec Byte.byte_eq_dec a b.

(** The identifier at [p] is an entry of the registry. *)
Definition authorized (p : list byte) : bool :=
  if in_dec bytes_eq_dec (c_str p) secureNetworks then true else false.

(** [xQueueSend] with a finite wait, on the queue alone: the queue after the
    call and the value returned. *)
Definition queue_send {T : Type} (q : Queue T) (item : T)
    : Queue T * BaseType_t :=
  if queue_full q then (q, errQUEUE_FULL)
  else (mkQueue (uxLength q) (items q ++ [item]), pdPASS).

(** The state in which [ScannerTask] ends the iteration that copies [src],
    started in [s]. *)
Definition ScannerTask_after (src : list byte) (s : Sys) : Sys :=
  let item := mkSSID (strncpy src SSID_SIZE) in
  let qr := queue_send (ssidQueue s) item in
  log_events
    [QueueSend_ssid item (pdMS_TO_TICKS 50) (snd qr);
     TaskDelay (pdMS_TO_TICKS 500)]
    (set_scanner
       (ScannerLocals.mk item (int_incr (ScannerLocals.idx (scanner s)))
          (ScannerLocals.stray (scanner s)))
       (set_ssidQueue (fst qr) s)).

(** The locals of [CheckerTask] once it has classified [item]. *)
Definition CheckerTask_classify (item : SSID_t) (l : CheckerLocals.t)
    : CheckerLocals.t :=
  (if authorized (ssid item) then CheckerTask_format_ok
   else CheckerTask_format_alert)
    (CheckerLocals.mk item (CheckerLocals.logMsg l)
       (CheckerLocals.alertCounter l)).

(** The state in which [CheckerTask] ends the iteration that receives
    [item], started in [s] with [rest] behind [item] in the event queue. *)
Definition CheckerTask_after (item : SSID_t) (rest : list SSID_t) (s : Sys)
    : Sys :=
  let l := CheckerTask_classify item (checker s) in
  let qr := queue_send (logQueue s) (CheckerLocals.logMsg l) in
  log_events
    (QueueReceive_ssid item portMAX_DELAY
       :: SemaphoreTake portMAX_DELAY
       :: registry_reads (pxCurrentTCB s) (ssid item)
       ++ [SemaphoreGive;
           QueueSend_log (CheckerLocals.logMsg l) (pdMS_TO_TICKS 50) (snd qr);
           WdtReset;
           TaskDelay (pdMS_TO_TICKS 5)])
    (set_logQueue (fst qr)
       (set_checker l
          (set_ssidQueue (mkQueue (uxLength (ssidQueue s)) rest) s))).

(** The state in which [LoggerTask] ends the iteration that receives
    [item]. *)
Definition LoggerTask_after (item : LogMessage_t) (rest : list LogMessage_t)
    (s : Sys) : Sys :=
  log_events
    [QueueReceive_log item portMAX_DELAY;
     Printf (c_str (message item) ++ [x0a])]
    (set_logger (LoggerLocals.mk item)
       (set_logQueue (mkQueue (uxLength (logQueue s)) rest) s)).

(** The task bodies as functions of what they receive. *)

(** The records [CheckerTask] builds from the events [evs], in order,
    started with the locals [l]. *)
Fixpoint CheckerTask_records (l : CheckerLocals.t) (evs : list SSID_t)
    : list LogMessage_t :=
  match evs with
  | [] => []
  | e :: evs' =>
      let l' := CheckerTask_classify e l in
      CheckerLocals.logMsg l' :: CheckerTask_records l' evs'
  end.

(** The locals of [CheckerTask] after the events [evs]. *)
Definition CheckerTask_locals (l : CheckerLocals.t) (evs : list SSID_t)
    : CheckerLocals.t :=
  fold_left (fun l e => CheckerTask_classify e l) evs l.

(** The events [ScannerTask] builds in [n] iterations entered with index
    [idx], on a stack where the reads outside [demoSSIDs] find [stray]. *)
Fixpoint ScannerTask_items (stray : Z -> list byte) (idx : Z) (n : nat)
    : list SSID_t :=
  match n with
  | O => []
  | S n' =>
      mkSSID (strncpy (demoSSIDs_at stray idx) SSID_SIZE)
        :: ScannerTask_items stray (int_incr idx) n'
  end.

Definition OK_PREFIX : list byte :=
  lit "{Checker} [OK] Rede segura detectada: ".

Definition ALERTA_PREFIX : list byte :=
  lit "{Checker} [ALERTA] Rede N" ++ [xc3; x83]
  ++ lit "O autorizada detectada: ".

(** The text of the record for an authorized identifier. *)
Definition ok_text (p : list byte) : list byte := OK_PREFIX ++ c_str p.

(** The text of the alert for identifier [p] with running count [n]. *)
Definition alert_text (p : list byte) (n : Z) : list byte :=
  ALERTA_PREFIX ++ c_str p ++ lit " (cont=" ++ itoa n ++ lit ")".

(** The string a record carries. *)
Definition record_text (m : LogMessage_t) : list byte := c_str (message m).

(** The events of [evs] whose identifier is not in the registry. *)
Definition unauthorized (evs : list SSID_t) : list SSID_t :=
  filter (fun e => negb (authorized (ssid e))) evs.

(** A [char] array of [size] bytes that holds a string: the terminator is
    inside the array. *)
Definition well_formed (size : nat) (buf : list byte) : Prop :=
  List.length buf = size /\
  (strlen buf < size)%nat /\
  nth_error buf (strlen buf) = Some NUL.

(** The alert records among [recs], each with the event it answers. *)
Definition alerts (evs : list SSID_t) (recs : list LogMessage_t)
    : list (SSID_t * LogMessage_t) :=
  filter (fun em => negb (authorized (ssid (fst em)))) (combine evs recs).

(** All the calls of task [t]. *)
Definition events_of (t : TaskId) : list (TaskId * Event) -> list Event :=
  collect (fun te => if TaskId_eqb (fst te) t then Some (snd te) else None).

(** 2^31, the first count an [int] cannot hold, as a number of
    iterations. *)
Definition two_pow_31 : nat := Z.to_nat 2147483648.

(** A number of rounds of [ScannerTask] then [CheckerTask]: 2^31 rounds,
    3 more, 214748364 times 6 and 2 more, 3435973837 in all. *)
Definition alert_overflow_rounds : nat :=
  (two_pow_31 + 3 + Z.to_nat 214748364 * 6 + 2)%nat.

(** What one scheduled iteration can be: the task, the state before and the
    state after. *)
Inductive step (s : Sys) : TaskId -> Sys -> Prop :=
| step_Scanner (src : list byte) :
    demoSSIDs_at (ScannerLocals.stray (scanner s))
      (ScannerLocals.idx (scanner s)) = src ->
    step s Scanner (ScannerTask_after src (set_pxCurrentTCB Scanner s))
| step_Checker (item : SSID_t) (rest : list SSID_t) :
    items (ssidQueue s) = item :: rest ->
    secureListMutex s = None ->
    step s Checker (CheckerTask_after item rest (set_pxCurrentTCB Checker s))
| step_Logger (item : LogMessage_t) (rest : list LogMessage_t) :
    items (logQueue s) = item :: rest ->
    step s Logger (LoggerTask_after item rest (set_pxCurrentTCB Logger s))
| step_Supervisor :
    step s Supervisor
      (log_events [TaskDelay (pdMS_TO_TICKS 1000)]
         (set_pxCurrentTCB Supervisor s)).

(** ** Vocabulary of the further properties *)

(** The lines written by [printf], in order. *)
Definition printed : list (TaskId * Event) -> list (list byte) :=
  collect (fun te =>
    match snd te with
    | Printf out => Some out
    | _ => None
    end).

(** The tasks that registered with the watchdog, in order. *)
Definition wdt_adds : list (TaskId * Event) -> list TaskId :=
  collect (fun te =>
    match snd te with
    | WdtAdd => Some (fst te)
    | _ => None
    end).

(** The tasks that refreshed the watchdog, refresh by refresh. *)
Definition wdt_reset_tasks : list (TaskId * Event) -> list TaskId :=
  collect (fun te =>
    match snd te with
    | WdtReset => Some (fst te)
    | _ => None
    end).

Definition is_ms (ms : Z) (t : TickType_t) : bool :=
  match t with
  | pdMS_TO_TICKS ms' => ms' =? ms
  | portMAX_DELAY => false
  end.

Definition is_forever (t : TickType_t) : bool :=
  match t with
  | pdMS_TO_TICKS _ => false
  | portMAX_DELAY => true
  end.

(** The calls the loop of each task is made of, with the waits the source
    passes. *)
Definition calls_of (t : TaskId) (e : Event) : bool :=
  match t, e with
  | Scanner, QueueSend_ssid _ w _ => is_ms 50 w
  | Scanner, TaskDelay d => is_ms 500 d
  | Checker, QueueReceive_ssid _ w => is_forever w
  | Checker, SemaphoreTake w => is_forever w
  | Checker, RegistryRead _ _ => true
  | Checker, SemaphoreGive => true
  | Checker, QueueSend_log _ w _ => is_ms 50 w
  | Checker, WdtReset => true
  | Checker, TaskDelay d => is_ms 5 d
  | Logger, QueueReceive_log _ w => is_forever w
  | Logger, Printf _ => true
  | Supervisor, TaskDelay d => is_ms 1000 d
  | _, _ => false
  end.

(** One round of a round-robin schedule of the pipeline. *)
Definition round : list TaskId := [Scanner; Checker; Logger].

(** The line [LoggerTask] prints for a record. *)
Definition line (m : LogMessage_t) : list byte := record_text m ++ [x0a].

(** A queue holds no more than it was created for. *)
Definition within_capacity {T : Type} (q : Queue T) : Prop :=
  (List.length (items q) <= uxLength q)%nat.

(** [text] is the OK text of a demonstration identifier that is in the
    registry, or an alert text of one that is not. *)
Definition log_text_of_demo (text : list byte) : Prop :=
  exists src : list byte,
    In src demoSSIDs /\
    ((In src secureNetworks /\ text = ok_text src) \/
     (~ In src secureNetworks /\ exists n : Z, text = alert_text src n)).

(** Both queues are empty (and can hold something) and the mutex is
    free. *)
Definition pipeline_idle (s : Sys) : Prop :=
  items (ssidQueue s) = [] /\ items (logQueue s) = [] /\
  (0 < uxLength (ssidQueue s))%nat /\ (0 < uxLength (logQueue s))%nat /\
  secureListMutex s = None.

(** * Properties *)

(** ** Bytes and C strings *)

Lemma byte_eqb_refl (c : byte) : Byte.eqb c c = true.
Proof. now apply Byte.byte_dec_lb. Qed.

Lemma byte_eqb_eq (a b : byte) : Byte.eqb a b = true <-> a = b.
Proof.
  split; [apply Byte.byte_dec_bl | apply Byte.byte_dec_lb].
Qed.

Lemma byte_eqb_neq (a b : byte) : Byte.eqb a b = false <-> a <> b.
Proof.
  split.
  - apply Byte.eqb_false.
  - intros Hne. destruct (Byte.eqb a b) eqn:E; [|reflexivity].
    now apply byte_eqb_eq in E.
Qed.

Lemma byte_eqb_spec (a b : byte) : reflect (a = b) (Byte.eqb a b).
Proof.
  destruct (Byte.eqb a b) eqn:E; constructor.
  - now apply byte_eqb_eq.
  - now apply byte_eqb_neq.
Qed.

Lemma uchar_inj (a b : byte) : uchar a = uchar b -> a = b.
Proof.
  unfold uchar. intros H. apply N2Z.inj in H.
  assert (Ha := Byte.of_to_N a). rewrite H, Byte.of_to_N in Ha.
  now inversion Ha.
Qed.

Lemma uchar_diff (a b : byte) : a <> b -> uchar a - uchar b <> 0.
Proof.
  intros Hne Hz. apply Hne, uchar_inj. lia.
Qed.

Lemma c_str_nil_hd (p : list byte) : hd NUL p = NUL -> c_str p = [].
Proof.
  destruct p as [|c p]; simpl; [reflexivity|].
  intros ->. now rewrite byte_eqb_refl.
Qed.

Lemma c_str_cons_hd (p : list byte) :
  hd NUL p <> NUL -> c_str p = hd NUL p :: c_str (tl p).
Proof.
  destruct p as [|c p]; simpl; [congruence|].
  intros Hne. apply byte_eqb_neq in Hne. now rewrite Hne.
Qed.

Lemma strcmp_unfold (s1 s2 : list byte) :
  strcmp s1 s2 =
  if Byte.eqb (hd NUL s1) (hd NUL s2) then
    if Byte.eqb (hd NUL s1) NUL then 0 else strcmp (tl s1) (tl s2)
  else uchar (hd NUL s1) - uchar (hd NUL s2).
Proof. destruct s1; reflexivity. Qed.

(** [strcmp] answers 0 exactly on equal strings. *)
Lemma strcmp_eq0 (s1 s2 : list byte) :
  strcmp s1 s2 = 0 <-> c_str s1 = c_str s2.
Proof.
  revert s2. induction s1 as [|c1 t1 IH]; intros s2;
    rewrite strcmp_unfold; cbn [hd tl];
    [ destruct (byte_eqb_spec NUL (hd NUL s2)) as [E|E]
    | destruct (byte_eqb_spec c1 (hd NUL s2)) as [E|E] ].
  - rewrite byte_eqb_refl, (c_str_nil_hd s2) by congruence. tauto.
  - split.
    + intros H. now apply uchar_diff in H.
    + rewrite (c_str_cons_hd s2) by congruence. discriminate.
  - destruct (byte_eqb_spec c1 NUL) as [E0|E0].
    + rewrite (c_str_nil_hd s2), (c_str_nil_hd (c1 :: t1)) by (cbn; congruence).
      tauto.
    + rewrite (c_str_cons_hd s2), (c_str_cons_hd (c1 :: t1)) by (cbn; congruence).
      cbn [hd tl]. rewrite IH, <- E. split; [congruence | now inversion 1].
  - split.
    + intros H. now apply uchar_diff in H.
    + destruct (byte_eqb_spec c1 NUL) as [E0|E0];
        destruct (byte_eqb_spec (hd NUL s2) NUL) as [E1|E1];
        try congruence.
      * rewrite (c_str_nil_hd (c1 :: t1)), (c_str_cons_hd s2) by (cbn; congruence).
        discriminate.
      * rewrite (c_str_cons_hd (c1 :: t1)), (c_str_nil_hd s2) by (cbn; congruence).
        discriminate.
      * rewrite (c_str_cons_hd (c1 :: t1)), (c_str_cons_hd s2) by (cbn; congruence).
        cbn [hd]. inversion 1. congruence.
Qed.

Lemma strcmp_eqb (s1 s2 : list byte) :
  (strcmp s1 s2 =? 0) = if bytes_eq_dec (c_str s1) (c_str s2) then true else false.
Proof.
  destruct (bytes_eq_dec (c_str s1) (c_str s2)) as [e|n].
  - apply Z.eqb_eq, strcmp_eq0, e.
  - apply Z.eqb_neq. now rewrite strcmp_eq0.
Qed.

Lemma c_str_no_NUL (p : list byte) : ~ In NUL (c_str p).
Proof.
  induction p as [|c p IH]; simpl; [tauto|].
  destruct (Byte.eqb c NUL) eqn:E; simpl; [tauto|].
  apply byte_eqb_neq in E. intros [H|H]; [congruence | tauto].
Qed.

Lemma c_str_id (p : list byte) : ~ In NUL p -> c_str p = p.
Proof.
  induction p as [|c p IH]; simpl; [reflexivity|].
  intros H. destruct (Byte.eqb c NUL) eqn:E.
  - apply byte_eqb_eq in E. tauto.
  - f_equal. apply IH. tauto.
Qed.

Lemma c_str_idem (p : list byte) : c_str (c_str p) = c_str p.
Proof. apply c_str_id, c_str_no_NUL. Qed.

Lemma c_str_terminated (t rest : list byte) :
  ~ In NUL t -> c_str (t ++ NUL :: rest) = t.
Proof.
  induction t as [|c t IH]; simpl; intros H.
  - reflexivity.
  - destruct (Byte.eqb c NUL) eqn:E.
    + apply byte_eqb_eq in E. tauto.
    + f_equal. apply IH. tauto.
Qed.

Lemma c_str_length_le (p : list byte) :
  (List.length (c_str p) <= List.length p)%nat.
Proof.
  induction p as [|c p IH]; simpl; [lia|].
  destruct (Byte.eqb c NUL); simpl; lia.
Qed.

(** The entries of the registry are strings as they stand. *)
Lemma secureNetworks_c_str (e : list byte) :
  In e secureNetworks -> c_str e = e.
Proof.
  unfold secureNetworks. simpl.
  intros H; repeat destruct H as [<-|H]; try reflexivity; contradiction.
Qed.

(** ** Commands and the history *)

Lemma log_events_nil (s : Sys) : log_events [] s = s.
Proof. destruct s. unfold log_events, set_trace. cbn. now rewrite app_nil_r. Qed.

Lemma log_events_app (a b : list Event) (s : Sys) :
  log_events b (log_events a s) = log_events (a ++ b) s.
Proof.
  destruct s. unfold log_events, set_trace. cbn.
  now rewrite map_app, app_assoc.
Qed.

Lemma emit_run (e : Event) (s : Sys) : emit e s = Some (tt, log_events [e] s).
Proof. reflexivity. Qed.

Lemma trace_log_events (evs : list Event) (s : Sys) :
  trace (log_events evs s) = trace s ++ map (pair (pxCurrentTCB s)) evs.
Proof. reflexivity. Qed.

Lemma new_events_app (s s' : Sys) (tr : list (TaskId * Event)) :
  trace s' = trace s ++ tr -> new_events s s' = tr.
Proof.
  unfold new_events. intros ->.
  rewrite skipn_app, skipn_all, Nat.sub_diag. reflexivity.
Qed.

Lemma skipn_nth_error {A : Type} (l : list A) : forall (i : nat) (e : A),
  nth_error l i = Some e -> skipn i l = e :: skipn (S i) l.
Proof.
  induction l as [|a l IH]; intros [|i] e H; cbn in H; try discriminate.
  - now inversion H.
  - cbn [skipn]. now apply IH.
Qed.

(** ** The registry lookup *)

Lemma read_secureNetworks_run (i : nat) (e : list byte) (s : Sys) :
  nth_error secureNetworks i = Some e ->
  read_secureNetworks i s =
  Some (e, log_events [RegistryRead i (secureListMutex s)] s).
Proof.
  intros H. unfold read_secureNetworks, bind, gets. rewrite emit_run.
  destruct s; cbn in *. now rewrite H.
Qed.

Lemma is_secure_network_loop_run (p : list byte) (n : nat) :
  forall (i : nat) (result : Z) (s : Sys),
    (i + n <= List.length secureNetworks)%nat ->
    is_secure_network_loop p i n result s =
    Some (if existsb (matches p) (firstn n (skipn i secureNetworks))
          then 1 else result,
          log_events
            (map (fun j => RegistryRead j (secureListMutex s))
               (seq i (scan_reads p (firstn n (skipn i secureNetworks)))))
            s).
Proof.
  induction n as [|n IH]; intros i result s Hi.
  - cbn. now rewrite log_events_nil.
  - destruct (nth_error secureNetworks i) as [e|] eqn:E.
    2:{ apply nth_error_None in E. lia. }
    rewrite (skipn_nth_error _ _ _ E).
    cbn [is_secure_network_loop firstn existsb scan_reads].
    unfold bind at 1. rewrite (read_secureNetworks_run _ _ _ E).
    unfold matches at 1. destruct (strcmp p e =? 0) eqn:Em.
    + reflexivity.
    + rewrite IH by lia. cbn [orb seq map].
      rewrite log_events_app. reflexivity.
Qed.

Lemma is_secure_network_run (p : list byte) (s : Sys) :
  secureListMutex s = None ->
  is_secure_network p s =
  Some (if existsb (matches p) secureNetworks then 1 else 0,
        log_events
          (SemaphoreTake portMAX_DELAY
             :: registry_reads (pxCurrentTCB s) p ++ [SemaphoreGive]) s).
Proof.
  intros Hfree. unfold is_secure_network, xSemaphoreTake, xSemaphoreGive.
  unfold bind at 1 2 3. unfold gets at 1 2. rewrite Hfree.
  change ((modify (set_secureListMutex (Some (pxCurrentTCB s)));;
           emit (SemaphoreTake portMAX_DELAY);; ret pdPASS) s)
    with (Some (pdPASS, log_events [SemaphoreTake portMAX_DELAY]
                          (set_secureListMutex (Some (pxCurrentTCB s)) s))).
  cbv beta iota. unfold bind at 1.
  rewrite is_secure_network_loop_run by (unfold MAX_SSIDS, secureNetworks; cbn; lia).
  change (skipn 0 secureNetworks) with secureNetworks.
  rewrite (firstn_all2 (n := MAX_SSIDS)) by (unfold MAX_SSIDS, secureNetworks; cbn; lia).
  cbv beta iota. unfold registry_reads.
  generalize (scan_reads p secureNetworks) as k.
  generalize (if existsb (matches p) secureNetworks then 1 else 0) as r.
  intros r k. destruct s; cbn in *. subst.
  unfold bind, modify, emit, ret, log_events, set_trace, set_secureListMutex.
  cbn. rewrite map_app, <- !app_assoc. reflexivity.
Qed.

Lemma existsb_matches (p : list byte) :
  existsb (matches p) secureNetworks = authorized p.
Proof.
  unfold authorized.
  destruct (in_dec bytes_eq_dec (c_str p) secureNetworks) as [Hin|Hout].
  - apply existsb_exists. exists (c_str p). split; [exact Hin|].
    unfold matches. apply Z.eqb_eq, strcmp_eq0.
    now rewrite (secureNetworks_c_str _ Hin).
  - apply not_true_is_false. intros H. apply existsb_exists in H.
    destruct H as (e & He & Hm). apply Hout.
    unfold matches in Hm. apply Z.eqb_eq, strcmp_eq0 in Hm.
    rewrite Hm, (secureNetworks_c_str _ He). exact He.
Qed.

Lemma authorized_iff (p : list byte) :
  authorized p = true <-> In (c_str p) secureNetworks.
Proof.
  unfold authorized. destruct (in_dec _ _ _); split; auto; discriminate.
Qed.

(** ** One iteration of each task *)

Ltac unfold_sys :=
  unfold log_events, vTaskDelay, esp_task_wdt_reset, esp_task_wdt_add,
    printf, emit, update_scanner, update_checker, update_logger, modify,
    gets, ret, bind, set_trace, set_scanner, set_checker, set_logger,
    set_ssidQueue, set_logQueue, set_secureListMutex, set_pxCurrentTCB;
  cbn [ssidQueue logQueue secureListMutex pxCurrentTCB scanner checker
       logger trace fst snd map app].

Lemma xQueueSend_ssid_run (item : SSID_t) (ms : Z) (s : Sys) :
  xQueueSend_ssid item (pdMS_TO_TICKS ms) s =
  Some (snd (queue_send (ssidQueue s) item),
        log_events
          [QueueSend_ssid item (pdMS_TO_TICKS ms)
             (snd (queue_send (ssidQueue s) item))]
          (set_ssidQueue (fst (queue_send (ssidQueue s) item)) s)).
Proof.
  unfold xQueueSend_ssid, queue_send, bind, gets.
  destruct (queue_full (ssidQueue s)); destruct s; reflexivity.
Qed.

Lemma xQueueSend_log_run (item : LogMessage_t) (ms : Z) (s : Sys) :
  xQueueSend_log item (pdMS_TO_TICKS ms) s =
  Some (snd (queue_send (logQueue s) item),
        log_events
          [QueueSend_log item (pdMS_TO_TICKS ms)
             (snd (queue_send (logQueue s) item))]
          (set_logQueue (fst (queue_send (logQueue s) item)) s)).
Proof.
  unfold xQueueSend_log, queue_send, bind, gets.
  destruct (queue_full (logQueue s)); destruct s; reflexivity.
Qed.

(** An iteration of [ScannerTask] always runs to its end. *)
Lemma ScannerTask_cycle_run (s : Sys) :
  ScannerTask_cycle s =
  Some (tt,
        ScannerTask_after
          (demoSSIDs_at (ScannerLocals.stray (scanner s))
             (ScannerLocals.idx (scanner s))) s).
Proof.
  unfold ScannerTask_cycle. unfold bind at 1. unfold gets at 1.
  cbv zeta. generalize (demoSSIDs_at (ScannerLocals.stray (scanner s))
                          (ScannerLocals.idx (scanner s))) as src. intros src.
  unfold bind at 1. unfold update_scanner at 1, modify at 1.
  unfold bind at 1. rewrite xQueueSend_ssid_run.
  unfold ScannerTask_after. destruct s as [sq lq mx cur sl cl ll tr].
  cbn [ssidQueue set_scanner scanner trace pxCurrentTCB logQueue
       secureListMutex checker logger].
  destruct (queue_send sq _) as [q r].
  unfold_sys. now rewrite <- app_assoc.
Qed.

Lemma xQueueReceive_ssid_run (t : TickType_t) (item : SSID_t)
    (rest : list SSID_t) (s : Sys) :
  items (ssidQueue s) = item :: rest ->
  xQueueReceive_ssid t s =
  Some (Some item,
        log_events [QueueReceive_ssid item t]
          (set_ssidQueue (mkQueue (uxLength (ssidQueue s)) rest) s)).
Proof.
  intros H. unfold xQueueReceive_ssid, bind, gets. rewrite H. reflexivity.
Qed.

Lemma xQueueReceive_log_run (t : TickType_t) (item : LogMessage_t)
    (rest : list LogMessage_t) (s : Sys) :
  items (logQueue s) = item :: rest ->
  xQueueReceive_log t s =
  Some (Some item,
        log_events [QueueReceive_log item t]
          (set_logQueue (mkQueue (uxLength (logQueue s)) rest) s)).
Proof.
  intros H. unfold xQueueReceive_log, bind, gets. rewrite H. reflexivity.
Qed.

Lemma CheckerTask_cycle_run (item : SSID_t) (rest : list SSID_t) (s : Sys) :
  items (ssidQueue s) = item :: rest ->
  secureListMutex s = None ->
  CheckerTask_cycle s = Some (tt, CheckerTask_after item rest s).
Proof.
  intros Hq Hfree. unfold CheckerTask_cycle. unfold bind at 1.
  rewrite (xQueueReceive_ssid_run _ _ _ _ Hq).
  destruct s as [sq lq mx cur sl cl ll tr]. cbn in Hq, Hfree. subst mx.
  unfold_sys.
  rewrite is_secure_network_run by reflexivity.
  rewrite existsb_matches.
  unfold CheckerTask_after, CheckerTask_classify.
  unfold_sys.
  destruct (authorized (ssid item)); cbn [Z.eqb];
    rewrite xQueueSend_log_run; unfold_sys;
    match goal with
    | |- context [queue_send lq (CheckerLocals.logMsg ?l)] =>
        generalize l; intros l'
    end;
    rewrite !map_app; cbn [map app];
    repeat (rewrite <- app_assoc; cbn [app]); reflexivity.
Qed.

Lemma CheckerTask_cycle_blocked (s : Sys) :
  items (ssidQueue s) = [] -> CheckerTask_cycle s = None.
Proof.
  intros H. unfold CheckerTask_cycle, xQueueReceive_ssid.
  unfold bind at 1 2. unfold gets at 1. now rewrite H.
Qed.

Lemma LoggerTask_cycle_run (item : LogMessage_t) (rest : list LogMessage_t)
    (s : Sys) :
  items (logQueue s) = item :: rest ->
  LoggerTask_cycle s = Some (tt, LoggerTask_after item rest s).
Proof.
  intros Hq. unfold LoggerTask_cycle. unfold bind at 1.
  rewrite (xQueueReceive_log_run _ _ _ _ Hq).
  unfold LoggerTask_after.
  change (format (lit "%s" ++ [x0a]) [arg_str (message item)])
    with (c_str (message item) ++ [x0a]).
  destruct s as [sq lq mx cur sl cl ll tr]. unfold_sys.
  now rewrite <- app_assoc.
Qed.

Lemma LoggerTask_cycle_blocked (s : Sys) :
  items (logQueue s) = [] -> LoggerTask_cycle s = None.
Proof.
  intros H. unfold LoggerTask_cycle, xQueueReceive_log.
  unfold bind at 1 2. unfold gets at 1. now rewrite H.
Qed.

Lemma SupervisorTask_cycle_run (s : Sys) :
  SupervisorTask_cycle s =
  Some (tt, log_events [TaskDelay (pdMS_TO_TICKS 1000)] s).
Proof. reflexivity. Qed.

Lemma is_secure_network_blocked (p : list byte) (h : TaskId) (s : Sys) :
  secureListMutex s = Some h -> is_secure_network p s = None.
Proof.
  intros H. unfold is_secure_network, xSemaphoreTake.
  unfold bind at 1 2. unfold gets at 1. now rewrite H.
Qed.

Lemma CheckerTask_cycle_mutex_taken (h : TaskId) (s : Sys) :
  secureListMutex s = Some h -> CheckerTask_cycle s = None.
Proof.
  intros H. destruct (items (ssidQueue s)) as [|item rest] eqn:Hq.
  - now apply CheckerTask_cycle_blocked.
  - unfold CheckerTask_cycle. unfold bind at 1.
    rewrite (xQueueReceive_ssid_run _ _ _ _ Hq).
    unfold bind at 1. unfold update_checker at 1, modify at 1.
    unfold bind at 1. now rewrite (is_secure_network_blocked _ h).
Qed.

(** ** Executions, one iteration at a time *)

Lemma dispatch_eq (t : TaskId) (s : Sys) :
  dispatch t s = task_cycle t (set_pxCurrentTCB t s).
Proof. reflexivity. Qed.

Lemma dispatch_step (t : TaskId) (s s' : Sys) :
  final (dispatch t s) = Some s' <-> step s t s'.
Proof.
  rewrite dispatch_eq. split.
  - destruct t; cbn [task_cycle].
    + discriminate.
    + rewrite ScannerTask_cycle_run. cbn. intros [= <-]. now constructor.
    + destruct (items (ssidQueue s)) as [|item rest] eqn:Hq.
      { rewrite CheckerTask_cycle_blocked by exact Hq. discriminate. }
      destruct (secureListMutex s) as [h|] eqn:Hm.
      { rewrite (CheckerTask_cycle_mutex_taken h) by exact Hm. discriminate. }
      rewrite (CheckerTask_cycle_run item rest) by assumption.
      cbn. intros [= <-]. now constructor.
    + destruct (items (logQueue s)) as [|item rest] eqn:Hq.
      { rewrite LoggerTask_cycle_blocked by exact Hq. discriminate. }
      rewrite (LoggerTask_cycle_run item rest) by assumption.
      cbn. intros [= <-]. now constructor.
    + rewrite SupervisorTask_cycle_run. cbn. intros [= <-]. constructor.
  - intros [src H|item rest Hq Hm|item rest Hq|]; cbn [task_cycle].
    + rewrite ScannerTask_cycle_run. cbn. now rewrite H.
    + now rewrite (CheckerTask_cycle_run item rest).
    + now rewrite (LoggerTask_cycle_run item rest).
    + now rewrite SupervisorTask_cycle_run.
Qed.

Lemma exec_nil (s : Sys) : exec [] s = Some s.
Proof. reflexivity. Qed.

Lemma exec_cons (t : TaskId) (sched : list TaskId) (s s' : Sys) :
  exec (t :: sched) s = Some s' <->
  exists s1, step s t s1 /\ exec sched s1 = Some s'.
Proof.
  cbn [exec]. split.
  - destruct (final (dispatch t s)) as [s1|] eqn:E; [|discriminate].
    intros H. exists s1. split; [now apply dispatch_step | exact H].
  - intros (s1 & Hstep & H). apply dispatch_step in Hstep.
    now rewrite Hstep.
Qed.

Lemma exec_app (a b : list TaskId) (s s' : Sys) :
  exec (a ++ b) s = Some s' <->
  exists s1, exec a s = Some s1 /\ exec b s1 = Some s'.
Proof.
  revert s. induction a as [|t a IH]; intros s.
  - cbn. split.
    + intros H. now exists s.
    + now intros (s1 & [= <-] & H).
  - rewrite <- app_comm_cons, exec_cons. split.
    + intros (s1 & Hstep & H). apply IH in H. destruct H as (s2 & Ha & Hb).
      exists s2. split; [|exact Hb]. apply exec_cons. now exists s1.
    + intros (s2 & Ha & Hb). apply exec_cons in Ha.
      destruct Ha as (s1 & Hstep & Ha). exists s1. split; [exact Hstep|].
      apply IH. now exists s2.
Qed.

(** *** The calls of one iteration *)

Lemma ScannerTask_events (src : list byte) (s : Sys) :
  new_events s (ScannerTask_after src (set_pxCurrentTCB Scanner s)) =
  [ (Scanner,
     QueueSend_ssid (mkSSID (strncpy src SSID_SIZE)) (pdMS_TO_TICKS 50)
       (snd (queue_send (ssidQueue s) (mkSSID (strncpy src SSID_SIZE)))));
    (Scanner, TaskDelay (pdMS_TO_TICKS 500)) ].
Proof. apply new_events_app. reflexivity. Qed.

Lemma CheckerTask_events (item : SSID_t) (rest : list SSID_t) (s : Sys) :
  new_events s (CheckerTask_after item rest (set_pxCurrentTCB Checker s)) =
  (Checker, QueueReceive_ssid item portMAX_DELAY)
    :: (Checker, SemaphoreTake portMAX_DELAY)
    :: map (pair Checker) (registry_reads Checker (ssid item))
    ++ [ (Checker, SemaphoreGive);
         (Checker,
          QueueSend_log
            (CheckerLocals.logMsg (CheckerTask_classify item (checker s)))
            (pdMS_TO_TICKS 50)
            (snd (queue_send (logQueue s)
                    (CheckerLocals.logMsg
                       (CheckerTask_classify item (checker s))))));
         (Checker, WdtReset);
         (Checker, TaskDelay (pdMS_TO_TICKS 5)) ].
Proof.
  apply new_events_app. unfold CheckerTask_after.
  rewrite trace_log_events. cbn [map]. now rewrite map_app.
Qed.

Lemma LoggerTask_events (item : LogMessage_t) (rest : list LogMessage_t)
    (s : Sys) :
  new_events s (LoggerTask_after item rest (set_pxCurrentTCB Logger s)) =
  [ (Logger, QueueReceive_log item portMAX_DELAY);
    (Logger, Printf (c_str (message item) ++ [x0a])) ].
Proof. apply new_events_app. reflexivity. Qed.

Lemma SupervisorTask_events (s : Sys) :
  new_events s
    (log_events [TaskDelay (pdMS_TO_TICKS 1000)]
       (set_pxCurrentTCB Supervisor s)) =
  [ (Supervisor, TaskDelay (pdMS_TO_TICKS 1000)) ].
Proof. apply new_events_app. reflexivity. Qed.

Lemma new_events_refl (s : Sys) : new_events s s = [].
Proof. apply new_events_app. now rewrite app_nil_r. Qed.

Lemma step_trace (s : Sys) (t : TaskId) (s' : Sys) :
  step s t s' -> trace s' = trace s ++ new_events s s'.
Proof.
  intros [src H|item rest Hq Hm|item rest Hq|].
  - now rewrite ScannerTask_events.
  - rewrite CheckerTask_events. unfold CheckerTask_after.
    rewrite trace_log_events. cbn [map]. now rewrite map_app.
  - now rewrite LoggerTask_events.
  - now rewrite SupervisorTask_events.
Qed.

Lemma exec_trace (sched : list TaskId) : forall (s s' : Sys),
  exec sched s = Some s' -> trace s' = trace s ++ new_events s s'.
Proof.
  induction sched as [|t sched IH]; intros s s' H.
  - cbn in H. inversion H; subst. now rewrite new_events_refl, app_nil_r.
  - apply exec_cons in H. destruct H as (s1 & Hstep & H).
    apply step_trace in Hstep. apply IH in H.
    symmetry. rewrite (new_events_app s s' (new_events s s1 ++ new_events s1 s')).
    + now rewrite H, Hstep, app_assoc.
    + now rewrite H, Hstep, app_assoc.
Qed.

Lemma new_events_step (s s1 s' : Sys) (t : TaskId) (sched : list TaskId) :
  step s t s1 -> exec sched s1 = Some s' ->
  new_events s s' = new_events s s1 ++ new_events s1 s'.
Proof.
  intros Hstep H. apply step_trace in Hstep. apply exec_trace in H.
  apply new_events_app. now rewrite H, Hstep, app_assoc.
Qed.

(** Induction on an execution, from its first iteration on, with the calls
    each part of it makes. *)
Lemma exec_ind_events
    (P : Sys -> list TaskId -> list (TaskId * Event) -> Sys -> Prop) :
  (forall s, P s [] [] s) ->
  (forall s t s1 sched tr s',
      step s t s1 -> exec sched s1 = Some s' -> P s1 sched tr s' ->
      P s (t :: sched) (new_events s s1 ++ tr) s') ->
  forall sched s s', exec sched s = Some s' -> P s sched (new_events s s') s'.
Proof.
  intros Hnil Hcons. induction sched as [|t sched IH]; intros s s' H.
  - cbn in H. inversion H; subst. rewrite new_events_refl. apply Hnil.
  - apply exec_cons in H. destruct H as (s1 & Hstep & H).
    rewrite (new_events_step _ _ _ _ _ Hstep H).
    apply (Hcons s t s1 sched); auto.
Qed.

(** *** Reading the history *)

Lemma collect_app {A : Type} (f : TaskId * Event -> option A)
    (a b : list (TaskId * Event)) :
  collect f (a ++ b) = collect f a ++ collect f b.
Proof. apply flat_map_app. Qed.

Lemma collect_cons {A : Type} (f : TaskId * Event -> option A)
    (te : TaskId * Event) (tr : list (TaskId * Event)) :
  collect f (te :: tr) =
  match f te with Some a => a :: collect f tr | None => collect f tr end.
Proof. unfold collect. cbn. now destruct (f te). Qed.

Lemma collect_none {A : Type} (f : TaskId * Event -> option A)
    (tr : list (TaskId * Event)) :
  Forall (fun te => f te = None) tr -> collect f tr = [].
Proof.
  induction 1 as [|te tr Hte _ IH]; [reflexivity|].
  now rewrite collect_cons, Hte.
Qed.

Lemma registry_reads_Forall (P : TaskId * Event -> Prop) (t me : TaskId)
    (p : list byte) :
  (forall i, P (t, RegistryRead i (Some me))) ->
  Forall P (map (pair t) (registry_reads me p)).
Proof.
  intros H. unfold registry_reads. rewrite map_map.
  apply Forall_forall. intros te Hin. apply in_map_iff in Hin.
  destruct Hin as (i & <- & _). apply H.
Qed.

Lemma collect_nil {A : Type} (f : TaskId * Event -> option A) :
  collect f [] = [].
Proof. reflexivity. Qed.

Ltac simpl_collect :=
  repeat first
    [ rewrite collect_app
    | rewrite collect_cons; cbn [fst snd TaskId_eqb]
    | rewrite collect_nil
    | rewrite (collect_none _ (map (pair _) (registry_reads _ _)))
        by (apply registry_reads_Forall; reflexivity) ];
  cbn [app].

(** ** The queues are first-in first-out *)

Lemma exec_fifo_ssid (sched : list TaskId) (s s' : Sys) :
  exec sched s = Some s' ->
  items (ssidQueue s) ++ enqueued_ssids (new_events s s') =
  received_ssids (new_events s s') ++ items (ssidQueue s').
Proof.
  revert sched s s'.
  apply (exec_ind_events (fun s _ tr s' =>
    items (ssidQueue s) ++ enqueued_ssids tr =
    received_ssids tr ++ items (ssidQueue s'))).
  - intros s. cbn. now rewrite app_nil_r.
  - intros s t s1 sched tr s' Hstep _ IH.
    unfold enqueued_ssids, received_ssids in *.
    destruct Hstep as [src H|item rest Hq Hm|item rest Hq|].
    + rewrite ScannerTask_events.
      change (ssidQueue (ScannerTask_after src (set_pxCurrentTCB Scanner s)))
        with (fst (queue_send (ssidQueue s) (mkSSID (strncpy src SSID_SIZE))))
        in IH.
      unfold queue_send in *.
      destruct (queue_full (ssidQueue s)); cbn [fst snd items] in *;
        simpl_collect; rewrite <- IH, <- ?app_assoc; reflexivity.
    + rewrite CheckerTask_events. simpl_collect.
      rewrite <- IH, Hq. reflexivity.
    + rewrite LoggerTask_events. simpl_collect. exact IH.
    + rewrite SupervisorTask_events. simpl_collect. exact IH.
Qed.

Lemma exec_fifo_log (sched : list TaskId) (s s' : Sys) :
  exec sched s = Some s' ->
  items (logQueue s) ++ enqueued_logs (new_events s s') =
  received_logs (new_events s s') ++ items (logQueue s').
Proof.
  revert sched s s'.
  apply (exec_ind_events (fun s _ tr s' =>
    items (logQueue s) ++ enqueued_logs tr =
    received_logs tr ++ items (logQueue s'))).
  - intros s. cbn. now rewrite app_nil_r.
  - intros s t s1 sched tr s' Hstep _ IH.
    unfold enqueued_logs, received_logs in *.
    destruct Hstep as [src H|item rest Hq Hm|item rest Hq|].
    + rewrite ScannerTask_events. simpl_collect. exact IH.
    + rewrite CheckerTask_events.
      change (logQueue (CheckerTask_after item rest (set_pxCurrentTCB Checker s)))
        with (fst (queue_send (logQueue s)
                     (CheckerLocals.logMsg
                        (CheckerTask_classify item (checker s))))) in IH.
      unfold queue_send in *.
      destruct (queue_full (logQueue s)); cbn [fst snd items] in *;
        simpl_collect; rewrite <- IH, <- ?app_assoc; reflexivity.
    + rewrite LoggerTask_events. simpl_collect.
      rewrite <- IH, Hq. reflexivity.
    + rewrite SupervisorTask_events. simpl_collect. exact IH.
Qed.

(** The records that entered the log queue are the records built, less
    those that met a full queue. *)
Lemma enqueued_logs_sends (tr : list (TaskId * Event)) :
  enqueued_logs tr =
  map fst (filter (fun mr => match snd mr with pdPASS => true | _ => false end)
             (checker_sends tr)).
Proof.
  unfold enqueued_logs, checker_sends.
  induction tr as [|[t e] tr IH]; [reflexivity|].
  rewrite !collect_cons. cbn [snd].
  destruct e; try exact IH. destruct r; cbn; now rewrite IH.
Qed.

Lemma enqueued_ssids_sends (tr : list (TaskId * Event)) :
  enqueued_ssids tr =
  map fst (filter (fun mr => match snd mr with pdPASS => true | _ => false end)
             (scanner_sends tr)).
Proof.
  unfold enqueued_ssids, scanner_sends.
  induction tr as [|[t e] tr IH]; [reflexivity|].
  rewrite !collect_cons. cbn [snd].
  destruct e; try exact IH. destruct r; cbn; now rewrite IH.
Qed.

(** ** The mutex between iterations *)

Lemma step_mutex (s : Sys) (t : TaskId) (s' : Sys) :
  step s t s' -> secureListMutex s' = secureListMutex s.
Proof. intros []; reflexivity. Qed.

Lemma exec_mutex (sched : list TaskId) : forall (s s' : Sys),
  exec sched s = Some s' -> secureListMutex s' = secureListMutex s.
Proof.
  induction sched as [|t sched IH]; intros s s' H.
  - now inversion H.
  - apply exec_cons in H. destruct H as (s1 & Hstep & H).
    rewrite (IH _ _ H). now apply step_mutex in Hstep.
Qed.

(** Every read of the registry is made by the task that holds the mutex. *)
Lemma exec_registry_accesses (sched : list TaskId) (s s' : Sys) :
  exec sched s = Some s' ->
  Forall (fun a => snd a = Some (fst a))
    (registry_accesses (new_events s s')).
Proof.
  revert sched s s'.
  apply (exec_ind_events (fun s _ tr s' =>
    Forall (fun a => snd a = Some (fst a)) (registry_accesses tr))).
  - intros s. constructor.
  - intros s t s1 sched tr s' Hstep _ IH.
    unfold registry_accesses in *. rewrite collect_app.
    apply Forall_app. split; [|exact IH]. clear IH.
    destruct Hstep as [src H|item rest Hq Hm|item rest Hq|].
    + rewrite ScannerTask_events. simpl_collect. constructor.
    + rewrite CheckerTask_events.
      rewrite !collect_cons. cbn [snd]. rewrite collect_app.
      apply Forall_app. split.
      * unfold registry_reads. rewrite map_map.
        generalize (seq 0 (scan_reads (ssid item) secureNetworks)) as l.
        induction l as [|i l IHl]; [constructor|].
        cbn [map]. rewrite collect_cons. cbn [fst snd].
        constructor; [reflexivity | exact IHl].
      * simpl_collect. constructor.
    + rewrite LoggerTask_events. simpl_collect. constructor.
    + rewrite SupervisorTask_events. simpl_collect. constructor.
Qed.

(** ** [CheckerTask] as a function of the events it receives *)

Lemma CheckerTask_records_app (evs1 evs2 : list SSID_t) :
  forall l : CheckerLocals.t,
    CheckerTask_records l (evs1 ++ evs2) =
    CheckerTask_records l evs1
    ++ CheckerTask_records (CheckerTask_locals l evs1) evs2.
Proof.
  induction evs1 as [|e evs1 IH]; intros l; [reflexivity|].
  cbn. now rewrite IH.
Qed.

Lemma CheckerTask_records_length (evs : list SSID_t) :
  forall l : CheckerLocals.t,
    List.length (CheckerTask_records l evs) = List.length evs.
Proof.
  induction evs as [|e evs IH]; intros l; [reflexivity|].
  cbn. now rewrite IH.
Qed.

Lemma exec_checker (sched : list TaskId) (s s' : Sys) :
  exec sched s = Some s' ->
  map fst (checker_sends (new_events s s')) =
  CheckerTask_records (checker s) (received_ssids (new_events s s')) /\
  checker s' = CheckerTask_locals (checker s) (received_ssids (new_events s s')) /\
  List.length (received_ssids (new_events s s')) = cycles Checker sched.
Proof.
  revert sched s s'.
  apply (exec_ind_events (fun s sched tr s' =>
    map fst (checker_sends tr) =
    CheckerTask_records (checker s) (received_ssids tr) /\
    checker s' = CheckerTask_locals (checker s) (received_ssids tr) /\
    List.length (received_ssids tr) = cycles Checker sched)).
  - intros s. now cbn.
  - intros s t s1 sched tr s' Hstep _ (IH1 & IH2 & IH3).
    unfold checker_sends, received_ssids, cycles in *.
    destruct Hstep as [src H|item rest Hq Hm|item rest Hq|].
    + rewrite ScannerTask_events. simpl_collect. cbn. auto.
    + rewrite CheckerTask_events. simpl_collect.
      cbn [map fst CheckerTask_records CheckerTask_locals fold_left
           filter TaskId_eqb List.length].
      rewrite IH1, IH2, IH3. auto.
    + rewrite LoggerTask_events. simpl_collect. cbn. auto.
    + rewrite SupervisorTask_events. simpl_collect. cbn. auto.
Qed.

(** ** [ScannerTask] as a function of its index *)

Lemma exec_scanner (sched : list TaskId) (s s' : Sys) :
  exec sched s = Some s' ->
  map fst (scanner_sends (new_events s s')) =
  ScannerTask_items (ScannerLocals.stray (scanner s))
    (ScannerLocals.idx (scanner s)) (cycles Scanner sched) /\
  List.length (scanner_sends (new_events s s')) = cycles Scanner sched /\
  ScannerLocals.idx (scanner s') =
  Nat.iter (cycles Scanner sched) int_incr (ScannerLocals.idx (scanner s)) /\
  delays Scanner (new_events s s') =
  repeat (pdMS_TO_TICKS 500) (cycles Scanner sched) /\
  ScannerLocals.stray (scanner s') = ScannerLocals.stray (scanner s).
Proof.
  revert sched s s'.
  apply (exec_ind_events (fun s sched tr s' =>
    map fst (scanner_sends tr) =
    ScannerTask_items (ScannerLocals.stray (scanner s))
      (ScannerLocals.idx (scanner s)) (cycles Scanner sched) /\
    List.length (scanner_sends tr) = cycles Scanner sched /\
    ScannerLocals.idx (scanner s') =
    Nat.iter (cycles Scanner sched) int_incr (ScannerLocals.idx (scanner s)) /\
    delays Scanner tr = repeat (pdMS_TO_TICKS 500) (cycles Scanner sched) /\
    ScannerLocals.stray (scanner s') = ScannerLocals.stray (scanner s))).
  - intros s. now cbn.
  - intros s t s1 sched tr s' Hstep _ (IH1 & IH2 & IH3 & IH4 & IH5).
    unfold scanner_sends, delays, cycles in *.
    destruct Hstep as [src H|item rest Hq Hm|item rest Hq|].
    + rewrite ScannerTask_events. simpl_collect.
      cbn [map fst filter TaskId_eqb List.length ScannerTask_items repeat].
      rewrite H, IH1, IH2, IH3, IH4, IH5, Nat.iter_succ_r. auto.
    + rewrite CheckerTask_events. simpl_collect. cbn. auto.
    + rewrite LoggerTask_events. simpl_collect. cbn. auto.
    + rewrite SupervisorTask_events. simpl_collect. cbn. auto 6.
Qed.

(** ** The watchdog *)

Lemma exec_wdt (sched : list TaskId) (s s' : Sys) :
  exec sched s = Some s' ->
  List.length (wdt_resets Checker (new_events s s')) = cycles Checker sched /\
  wdt_resets Scanner (new_events s s') = [] /\
  wdt_resets Logger (new_events s s') = [] /\
  wdt_resets Supervisor (new_events s s') = [].
Proof.
  revert sched s s'.
  apply (exec_ind_events (fun s sched tr s' =>
    List.length (wdt_resets Checker tr) = cycles Checker sched /\
    wdt_resets Scanner tr = [] /\
    wdt_resets Logger tr = [] /\
    wdt_resets Supervisor tr = [])).
  - intros s. now cbn.
  - intros s t s1 sched tr s' Hstep _ (IH1 & IH2 & IH3 & IH4).
    unfold wdt_resets, cycles in *.
    destruct Hstep as [src H|item rest Hq Hm|item rest Hq|].
    + rewrite ScannerTask_events. simpl_collect. cbn. auto.
    + rewrite CheckerTask_events. simpl_collect. cbn. auto.
    + rewrite LoggerTask_events. simpl_collect. cbn. auto.
    + rewrite SupervisorTask_events. simpl_collect. cbn. auto.
Qed.

(** ** [strncpy], [snprintf] and the texts of the records *)

Lemma strncpy_length (n : nat) : forall src : list byte,
  List.length (strncpy src n) = n.
Proof.
  induction n as [|n IH]; intros src; [reflexivity|].
  cbn [strncpy]. destruct src as [|c src].
  - apply repeat_length.
  - destruct (Byte.eqb c NUL); [apply repeat_length|].
    cbn. now rewrite IH.
Qed.

Lemma strncpy_spec (n : nat) : forall src : list byte,
  strncpy src n = firstn n (c_str src ++ repeat NUL n).
Proof.
  induction n as [|n IH]; intros src; [reflexivity|].
  cbn [strncpy]. destruct src as [|c src].
  - cbn [c_str app]. symmetry. apply firstn_all2. now rewrite repeat_length.
  - cbn [c_str]. destruct (Byte.eqb c NUL).
    + cbn [app]. symmetry. apply firstn_all2. now rewrite repeat_length.
    + rewrite IH. cbn [app firstn repeat]. f_equal.
      rewrite (repeat_cons n NUL), app_assoc.
      rewrite (firstn_app n (c_str src ++ repeat NUL n)).
      rewrite (proj2 (Nat.sub_0_le _ _)), app_nil_r; [reflexivity|].
      rewrite length_app, repeat_length. lia.
Qed.

Lemma firstn_repeat_le {A : Type} (a : A) (n : nat) : forall k : nat,
  (k <= n)%nat -> firstn k (repeat a n) = repeat a k.
Proof.
  induction n as [|n IH]; intros [|k] H; cbn; try reflexivity; try lia.
  f_equal. apply IH. lia.
Qed.

Lemma in_firstn {A : Type} (x : A) (n : nat) (l : list A) :
  In x (firstn n l) -> In x l.
Proof.
  intros H. rewrite <- (firstn_skipn n l). apply in_or_app. now left.
Qed.

Lemma c_str_padded (t : list byte) (k : nat) :
  ~ In NUL t -> c_str (t ++ repeat NUL k) = t.
Proof.
  intros H. destruct k as [|k].
  - cbn. rewrite app_nil_r. now apply c_str_id.
  - cbn [repeat]. now apply c_str_terminated.
Qed.

(** A source shorter than the array arrives whole and terminated. *)
Lemma strncpy_well_formed (n : nat) (src : list byte) :
  (List.length (c_str src) < n)%nat ->
  well_formed n (strncpy src n) /\ c_str (strncpy src n) = c_str src.
Proof.
  intros Hlen.
  assert (E : strncpy src n =
              c_str src ++ repeat NUL (n - List.length (c_str src))).
  { rewrite strncpy_spec, firstn_app, firstn_all2 by lia.
    f_equal. apply firstn_repeat_le. lia. }
  assert (Hc : c_str (strncpy src n) = c_str src).
  { rewrite E. apply c_str_padded, c_str_no_NUL. }
  split; [|exact Hc]. unfold well_formed, strlen. rewrite Hc.
  split; [apply strncpy_length|]. split; [exact Hlen|].
  rewrite E, nth_error_app2, Nat.sub_diag by lia.
  destruct (n - List.length (c_str src))%nat eqn:En; [lia | reflexivity].
Qed.

Lemma snprintf_length (dest : list byte) (m : nat) (fmt : list byte)
    (args : list vararg) :
  (S m <= List.length dest)%nat ->
  List.length (snprintf dest (S m) fmt args) = List.length dest.
Proof.
  intros H. unfold snprintf.
  assert (Ht := firstn_le_length m (format fmt args)).
  rewrite length_app. cbn [List.length]. rewrite length_skipn. lia.
Qed.

Lemma snprintf_c_str (dest : list byte) (m : nat) (fmt : list byte)
    (args : list vararg) :
  ~ In NUL (format fmt args) ->
  c_str (snprintf dest (S m) fmt args) = firstn m (format fmt args).
Proof.
  intros H. unfold snprintf. apply c_str_terminated.
  intros Hin. apply H. revert Hin. apply in_firstn.
Qed.

Lemma snprintf_well_formed (dest : list byte) (m : nat) (fmt : list byte)
    (args : list vararg) :
  List.length dest = S m ->
  ~ In NUL (format fmt args) ->
  well_formed (S m) (snprintf dest (S m) fmt args).
Proof.
  intros Hlen Hnul. unfold well_formed, strlen.
  rewrite snprintf_c_str by exact Hnul.
  assert (Ht := firstn_le_length m (format fmt args)).
  split; [rewrite snprintf_length; lia|]. split; [lia|].
  unfold snprintf. now rewrite nth_error_app2, Nat.sub_diag by lia.
Qed.

(** *** [%d] *)

Lemma digit_not_NUL (d : Z) : 0 <= d < 10 -> digit d <> NUL.
Proof.
  intros H.
  assert (C : d = 0 \/ d = 1 \/ d = 2 \/ d = 3 \/ d = 4 \/ d = 5 \/ d = 6
              \/ d = 7 \/ d = 8 \/ d = 9) by lia.
  repeat destruct C as [->|C]; try subst d; discriminate.
Qed.

Lemma utoa_length (fuel : nat) : forall (n : Z) (acc : list byte),
  (List.length (utoa fuel n acc) <= fuel + List.length acc)%nat.
Proof.
  induction fuel as [|fuel IH]; intros n acc; cbn [utoa]; [lia|].
  destruct (n / 10 =? 0).
  - cbn. lia.
  - specialize (IH (n / 10) (digit (n mod 10) :: acc)). cbn in IH. lia.
Qed.

Lemma utoa_no_NUL (fuel : nat) : forall (n : Z) (acc : list byte),
  ~ In NUL acc -> ~ In NUL (utoa fuel n acc).
Proof.
  induction fuel as [|fuel IH]; intros n acc Hacc; cbn [utoa]; [exact Hacc|].
  assert (Hd : ~ In NUL (digit (n mod 10) :: acc)).
  { intros [H|H]; [|tauto].
    revert H. apply digit_not_NUL. apply Z.mod_pos_bound. lia. }
  destruct (n / 10 =? 0); [exact Hd | now apply IH].
Qed.

Lemma itoa_length (n : Z) : (List.length (itoa n) <= 11)%nat.
Proof.
  unfold itoa. destruct (n <? 0).
  - rewrite length_app. assert (H := utoa_length 10 (- n) []). cbn in *. lia.
  - assert (H := utoa_length 10 n []). cbn in *. lia.
Qed.

Lemma itoa_no_NUL (n : Z) : ~ In NUL (itoa n).
Proof.
  unfold itoa. destruct (n <? 0).
  - intros H. apply in_app_or in H. destruct H as [H|H].
    + cbn in H. destruct H as [H|[]]. discriminate.
    + revert H. apply utoa_no_NUL. tauto.
  - apply utoa_no_NUL. tauto.
Qed.

(** *** The two formats *)

Lemma format_OK (p : list byte) : format FMT_OK [arg_str p] = ok_text p.
Proof.
  change (format FMT_OK [arg_str p]) with (OK_PREFIX ++ c_str p ++ []).
  now rewrite app_nil_r.
Qed.

Lemma format_ALERTA (p : list byte) (n : Z) :
  format FMT_ALERTA [arg_str p; arg_int n] = alert_text p n.
Proof. reflexivity. Qed.

Lemma no_NUL_dec (l : list byte) :
  forallb (fun b => negb (Byte.eqb b NUL)) l = true -> ~ In NUL l.
Proof.
  intros H Hin. rewrite forallb_forall in H. apply H in Hin.
  now rewrite byte_eqb_refl in Hin.
Qed.

Lemma ok_text_no_NUL (p : list byte) : ~ In NUL (ok_text p).
Proof.
  unfold ok_text. intros H. apply in_app_or in H. destruct H as [H|H].
  - revert H. now apply no_NUL_dec.
  - revert H. apply c_str_no_NUL.
Qed.

Lemma alert_text_no_NUL (p : list byte) (n : Z) : ~ In NUL (alert_text p n).
Proof.
  unfold alert_text. rewrite !in_app_iff.
  intros [H|[H|[H|[H|H]]]]; revert H.
  - now apply no_NUL_dec.
  - apply c_str_no_NUL.
  - now apply no_NUL_dec.
  - apply itoa_no_NUL.
  - now apply no_NUL_dec.
Qed.

Lemma ok_text_length (p : list byte) :
  List.length (ok_text p) = (38 + strlen p)%nat.
Proof. unfold ok_text. now rewrite length_app. Qed.

Lemma alert_text_length (p : list byte) (n : Z) :
  List.length (alert_text p n) =
  (51 + strlen p + 7 + List.length (itoa n) + 1)%nat.
Proof.
  unfold alert_text. rewrite !length_app.
  change (List.length ALERTA_PREFIX) with 51%nat.
  change (List.length (lit " (cont=")) with 7%nat.
  change (List.length (lit ")")) with 1%nat.
  unfold strlen. lia.
Qed.

(** ** The C [int] *)

Lemma wrap_int_id (z : Z) : INT_MIN <= z <= INT_MAX -> wrap_int z = z.
Proof.
  unfold wrap_int, INT_MIN, INT_MAX. intros H.
  rewrite Z.mod_small; lia.
Qed.

Lemma int_incr_small (c : Z) : INT_MIN <= c < INT_MAX -> int_incr c = c + 1.
Proof. intros H. unfold int_incr. apply wrap_int_id. lia. Qed.

Lemma int_incr_INT_MAX : int_incr INT_MAX = INT_MIN.
Proof. reflexivity. Qed.

Lemma int_rem_index (i : Z) : 0 <= i -> int_rem i 6 = i mod 6.
Proof. intros H. unfold int_rem. apply Z.rem_mod_nonneg; lia. Qed.

(** ** Classification of one event *)

Lemma classify_counter (item : SSID_t) (l : CheckerLocals.t) :
  CheckerLocals.alertCounter (CheckerTask_classify item l) =
  if authorized (ssid item) then CheckerLocals.alertCounter l
  else int_incr (CheckerLocals.alertCounter l).
Proof. unfold CheckerTask_classify. now destruct (authorized (ssid item)). Qed.

Lemma classify_record_text (item : SSID_t) (l : CheckerLocals.t) :
  record_text (CheckerLocals.logMsg (CheckerTask_classify item l)) =
  firstn 127
    (if authorized (ssid item) then ok_text (ssid item)
     else alert_text (ssid item) (int_incr (CheckerLocals.alertCounter l))).
Proof.
  unfold CheckerTask_classify, record_text.
  destruct (authorized (ssid item)); cbn [CheckerTask_format_ok
    CheckerTask_format_alert CheckerLocals.logMsg CheckerLocals.ssidData
    CheckerLocals.alertCounter message].
  - unfold MESSAGE_SIZE. rewrite snprintf_c_str; rewrite format_OK;
      [reflexivity | apply ok_text_no_NUL].
  - unfold MESSAGE_SIZE. rewrite snprintf_c_str; rewrite format_ALERTA;
      [reflexivity | apply alert_text_no_NUL].
Qed.

Lemma classify_well_formed (item : SSID_t) (l : CheckerLocals.t) :
  List.length (message (CheckerLocals.logMsg l)) = MESSAGE_SIZE ->
  well_formed MESSAGE_SIZE
    (message (CheckerLocals.logMsg (CheckerTask_classify item l))).
Proof.
  intros Hlen. unfold CheckerTask_classify.
  destruct (authorized (ssid item)); cbn [CheckerTask_format_ok
    CheckerTask_format_alert CheckerLocals.logMsg CheckerLocals.ssidData
    CheckerLocals.alertCounter message];
    apply snprintf_well_formed; try exact Hlen.
  - rewrite format_OK. apply ok_text_no_NUL.
  - rewrite format_ALERTA. apply alert_text_no_NUL.
Qed.

(** An identifier that fits the 32-byte array is never cut. *)
Lemma record_text_whole (item : SSID_t) (l : CheckerLocals.t) :
  (strlen (ssid item) <= SSID_SIZE)%nat ->
  record_text (CheckerLocals.logMsg (CheckerTask_classify item l)) =
  if authorized (ssid item) then ok_text (ssid item)
  else alert_text (ssid item) (int_incr (CheckerLocals.alertCounter l)).
Proof.
  intros Hlen. rewrite classify_record_text. unfold SSID_SIZE in Hlen.
  apply firstn_all2. destruct (authorized (ssid item)).
  - rewrite ok_text_length. lia.
  - rewrite alert_text_length.
    assert (H := itoa_length (int_incr (CheckerLocals.alertCounter l))). lia.
Qed.

(** ** [CheckerTask] over a sequence of events *)

Lemma CheckerTask_records_well_formed (evs : list SSID_t) :
  forall l : CheckerLocals.t,
    List.length (message (CheckerLocals.logMsg l)) = MESSAGE_SIZE ->
    Forall (fun m => well_formed MESSAGE_SIZE (message m))
      (CheckerTask_records l evs).
Proof.
  induction evs as [|e evs IH]; intros l Hlen; cbn [CheckerTask_records];
    constructor.
  - now apply classify_well_formed.
  - apply IH. now apply classify_well_formed.
Qed.

Lemma unauthorized_cons (e : SSID_t) (evs : list SSID_t) :
  unauthorized (e :: evs) =
  if authorized (ssid e) then unauthorized evs else e :: unauthorized evs.
Proof. unfold unauthorized. cbn. now destruct (authorized (ssid e)). Qed.

(** Without overflow the counter is the number of unauthorized events. *)
Lemma CheckerTask_counter (evs : list SSID_t) : forall l : CheckerLocals.t,
  0 <= CheckerLocals.alertCounter l ->
  CheckerLocals.alertCounter l + Z.of_nat (List.length (unauthorized evs))
    <= INT_MAX ->
  CheckerLocals.alertCounter (CheckerTask_locals l evs) =
  CheckerLocals.alertCounter l + Z.of_nat (List.length (unauthorized evs)).
Proof.
  unfold INT_MAX.
  induction evs as [|e evs IH]; intros l H0 Hmax.
  - cbn. lia.
  - cbn [CheckerTask_locals fold_left]. rewrite unauthorized_cons in *.
    fold (CheckerTask_locals (CheckerTask_classify e l) evs).
    assert (Hc := classify_counter e l).
    destruct (authorized (ssid e)).
    + rewrite IH; rewrite Hc; auto.
    + cbn [List.length] in *.
      rewrite int_incr_small in Hc by (unfold INT_MIN, INT_MAX; lia).
      rewrite IH; rewrite Hc; lia.
Qed.

(** With overflow it is that number modulo 2^32. *)
Lemma CheckerTask_counter_wrap (evs : list SSID_t) :
  forall l : CheckerLocals.t,
    CheckerLocals.alertCounter (CheckerTask_locals l evs) =
    Nat.iter (List.length (unauthorized evs)) int_incr
      (CheckerLocals.alertCounter l).
Proof.
  induction evs as [|e evs IH]; intros l; [reflexivity|].
  cbn [CheckerTask_locals fold_left]. rewrite unauthorized_cons.
  fold (CheckerTask_locals (CheckerTask_classify e l) evs).
  rewrite IH, classify_counter.
  destruct (authorized (ssid e)); [reflexivity|].
  cbn [List.length]. now rewrite Nat.iter_succ_r.
Qed.

(** The i-th alert carries the count i (from one). *)
Lemma CheckerTask_alerts_numbered (evs : list SSID_t) :
  forall (l : CheckerLocals.t) (i : nat) (e : SSID_t) (m : LogMessage_t),
    0 <= CheckerLocals.alertCounter l ->
    CheckerLocals.alertCounter l + Z.of_nat (List.length (unauthorized evs))
      <= INT_MAX ->
    Forall (fun e => (strlen (ssid e) <= SSID_SIZE)%nat) evs ->
    nth_error (alerts evs (CheckerTask_records l evs)) i = Some (e, m) ->
    record_text m =
    alert_text (ssid e) (CheckerLocals.alertCounter l + Z.of_nat i + 1).
Proof.
  unfold INT_MAX.
  induction evs as [|e0 evs IH]; intros l i e m H0 Hmax Hsz Hnth.
  - destruct i; discriminate.
  - inversion Hsz as [|? ? Hsz0 Hsz']; subst.
    cbn [CheckerTask_records] in Hnth. unfold alerts in Hnth.
    cbn [combine filter fst] in Hnth.
    rewrite unauthorized_cons in Hmax.
    assert (Hc := classify_counter e0 l).
    assert (Ht := record_text_whole e0 l Hsz0).
    fold (alerts evs (CheckerTask_records (CheckerTask_classify e0 l) evs))
      in Hnth.
    destruct (authorized (ssid e0)); cbn [negb] in Hnth.
    + apply IH in Hnth; auto; rewrite Hc in *; auto.
    + cbn [List.length] in Hmax.
      rewrite int_incr_small in Hc, Ht by (unfold INT_MIN, INT_MAX; lia).
      destruct i as [|i]; cbn [nth_error] in Hnth.
      * inversion Hnth; subst. rewrite Ht. f_equal. lia.
      * apply IH in Hnth; auto; rewrite Hc in *; try lia.
        rewrite Hnth. f_equal. lia.
Qed.

Lemma scan_reads_bounds (p : list byte) (registry : list (list byte)) :
  registry <> [] ->
  (1 <= scan_reads p registry <= List.length registry)%nat.
Proof.
  induction registry as [|e registry IH]; [congruence|]. intros _.
  cbn [scan_reads List.length]. destruct (strcmp p e =? 0); [lia|].
  destruct registry as [|e' registry]; [cbn; lia|].
  assert (e' :: registry <> []) by discriminate. specialize (IH H). lia.
Qed.

Lemma scan_reads_miss (p : list byte) (registry : list (list byte)) :
  existsb (matches p) registry = false ->
  scan_reads p registry = List.length registry.
Proof.
  induction registry as [|e registry IH]; [reflexivity|].
  cbn [existsb scan_reads List.length]. unfold matches at 1.
  destruct (strcmp p e =? 0); [discriminate|].
  cbn [orb]. intros H. now rewrite IH.
Qed.

Lemma scan_reads_hit (p : list byte) (registry : list (list byte)) :
  existsb (matches p) registry = true ->
  exists e, nth_error registry (scan_reads p registry - 1) = Some e /\
            matches p e = true.
Proof.
  induction registry as [|e registry IH]; [discriminate|].
  cbn [existsb scan_reads]. unfold matches at 1.
  destruct (strcmp p e =? 0) eqn:E.
  - intros _. exists e. split; [reflexivity | exact E].
  - cbn [orb]. intros H. destruct (IH H) as (e' & Hn & Hm).
    exists e'. split; [|exact Hm].
    assert (Hb : (1 <= scan_reads p registry)%nat).
    { destruct registry; [discriminate|].
      apply scan_reads_bounds. discriminate. }
    replace (S (scan_reads p registry) - 1)%nat
      with (S (scan_reads p registry - 1)) by lia.
    exact Hn.
Qed.

(** ** Arithmetic of the index and of the counter *)

Lemma int_incr_wrap (x : Z) : int_incr (wrap_int x) = wrap_int (x + 1).
Proof.
  unfold int_incr, wrap_int.
  replace ((x + 2 ^ 31) mod 2 ^ 32 - 2 ^ 31 + 1 + 2 ^ 31)
    with ((x + 2 ^ 31) mod 2 ^ 32 + 1) by lia.
  rewrite Zplus_mod_idemp_l. f_equal. f_equal. lia.
Qed.

Lemma iter_int_incr (n : nat) (c : Z) :
  Nat.iter n int_incr (wrap_int c) = wrap_int (c + Z.of_nat n).
Proof.
  induction n as [|n IH].
  - change (Nat.iter 0 int_incr (wrap_int c)) with (wrap_int c).
    f_equal. lia.
  - rewrite Nat.iter_succ, IH, int_incr_wrap. f_equal. lia.
Qed.

Lemma two_pow_31_eq : Z.of_nat two_pow_31 = 2147483648.
Proof. unfold two_pow_31. apply Z2Nat.id. lia. Qed.

(** ** Queues and schedules *)

Lemma firstn_full {A : Type} (n : nat) (l x : list A) :
  List.length l = n -> firstn n (l ++ x) = l.
Proof.
  intros <-. rewrite firstn_app, Nat.sub_diag, firstn_all. cbn.
  apply app_nil_r.
Qed.

Lemma filter_id {A : Type} (f : A -> bool) (l : list A) :
  Forall (fun x => f x = true) l -> filter f l = l.
Proof.
  induction 1 as [|x l Hx _ IH]; [reflexivity|].
  cbn. now rewrite Hx, IH.
Qed.

Lemma queue_send_full {T : Type} (q : Queue T) (item : T) :
  queue_full q = true -> queue_send q item = (q, errQUEUE_FULL).
Proof. intros H. unfold queue_send. now rewrite H. Qed.

Lemma queue_send_empty {T : Type} (q : Queue T) (item : T) :
  items q = [] -> (0 < uxLength q)%nat ->
  queue_send q item = (mkQueue (uxLength q) [item], pdPASS).
Proof.
  intros Hq Hux. unfold queue_send, queue_full. rewrite Hq. cbn [List.length].
  destruct (Nat.leb_spec (uxLength q) 0); [lia | reflexivity].
Qed.

Lemma new_events_exec_app (a b : list TaskId) (s s1 s' : Sys) :
  exec a s = Some s1 -> exec b s1 = Some s' ->
  new_events s s' = new_events s s1 ++ new_events s1 s'.
Proof.
  intros Ha Hb. apply exec_trace in Ha. apply exec_trace in Hb.
  apply new_events_app. now rewrite Hb, Ha, app_assoc.
Qed.

Lemma cycles_app (t : TaskId) (a b : list TaskId) :
  cycles t (a ++ b) = (cycles t a + cycles t b)%nat.
Proof. unfold cycles. now rewrite filter_app, length_app. Qed.

Lemma cycles_repeat (t : TaskId) (n : nat) : cycles t (repeat t n) = n.
Proof.
  unfold cycles. induction n as [|n IH]; [reflexivity|].
  cbn [repeat filter]. destruct t; cbn; now rewrite IH.
Qed.

Lemma cycles_pairs (n : nat) :
  cycles Scanner (List.concat (repeat [Scanner; Checker] n)) = n /\
  cycles Checker (List.concat (repeat [Scanner; Checker] n)) = n.
Proof.
  induction n as [|n (IH1 & IH2)]; [now cbn|].
  cbn [repeat List.concat]. rewrite !cycles_app, IH1, IH2. now cbn.
Qed.

(** ** The identifiers [ScannerTask] reads *)

Lemma demoSSIDs_short :
  Forall (fun src => (List.length (c_str src) < SSID_SIZE)%nat) demoSSIDs.
Proof. repeat constructor. Qed.

Lemma demoSSIDs_no_NUL : Forall (fun src => c_str src = src) demoSSIDs.
Proof. repeat constructor. Qed.

Lemma demoSSIDs_get (a : nat) :
  array_get demoSSIDs (int_rem (Z.of_nat a) 6) =
    Some (nth (a mod 6) demoSSIDs []) /\
  nth_error demoSSIDs (a mod 6) = Some (nth (a mod 6) demoSSIDs []).
Proof.
  assert (Hlt : (a mod 6 < List.length demoSSIDs)%nat).
  { apply Nat.mod_upper_bound. discriminate. }
  assert (Hn : nth_error demoSSIDs (a mod 6) = Some (nth (a mod 6) demoSSIDs []))
    by now apply nth_error_nth'.
  split; [|exact Hn].
  rewrite int_rem_index by lia. unfold array_get.
  change 6 with (Z.of_nat 6). rewrite <- Nat2Z.inj_mod.
  destruct (Z.ltb_spec (Z.of_nat (a mod 6)) 0); [lia|].
  now rewrite Nat2Z.id.
Qed.

(** While the index is not negative the read stays inside the array. *)
Lemma demoSSIDs_at_index (stray : Z -> list byte) (a : nat) :
  demoSSIDs_at stray (Z.of_nat a) = nth (a mod 6) demoSSIDs [].
Proof. unfold demoSSIDs_at. now rewrite (proj1 (demoSSIDs_get a)). Qed.

Lemma demoSSIDs_nth_In (j : nat) : In (nth (j mod 6) demoSSIDs []) demoSSIDs.
Proof. eapply nth_error_In. apply (demoSSIDs_get j). Qed.

(** A negative index reads outside the array. *)
Lemma demoSSIDs_at_INT_MIN (stray : Z -> list byte) :
  demoSSIDs_at stray INT_MIN = stray INT_MIN.
Proof. reflexivity. Qed.

Lemma boot_idx (g : Garbage) : ScannerLocals.idx (scanner (boot g)) = 0.
Proof. reflexivity. Qed.

Lemma boot_stray (g : Garbage) :
  ScannerLocals.stray (scanner (boot g)) = scanner_stray g.
Proof. reflexivity. Qed.

(** The index after the iterations of an execution from start-up. *)
Lemma exec_idx (g : Garbage) (sched : list TaskId) (s : Sys) :
  exec sched (boot g) = Some s ->
  ScannerLocals.idx (scanner s) = wrap_int (Z.of_nat (cycles Scanner sched)).
Proof.
  intros Hexec. destruct (exec_scanner _ _ _ Hexec) as (_ & _ & Hidx & _).
  rewrite Hidx, boot_idx. change 0 with (wrap_int 0) at 1.
  now rewrite iter_int_incr.
Qed.

Lemma ScannerTask_items_app (stray : Z -> list byte) (a b : nat) :
  forall idx : Z,
    ScannerTask_items stray idx (a + b) =
    ScannerTask_items stray idx a
    ++ ScannerTask_items stray (Nat.iter a int_incr idx) b.
Proof.
  induction a as [|a IH]; intros idx; [reflexivity|].
  cbn [Nat.add ScannerTask_items app]. now rewrite IH, Nat.iter_succ_r.
Qed.

(** Every event built is a 32-byte array. *)
Lemma ScannerTask_items_sized (stray : Z -> list byte) (n : nat) :
  forall idx : Z,
    Forall (fun e => List.length (ssid e) = SSID_SIZE)
      (ScannerTask_items stray idx n).
Proof.
  induction n as [|n IH]; intros idx; cbn [ScannerTask_items];
    constructor; [apply strncpy_length | apply IH].
Qed.

(** Up to the overflow of the index the events are those of the
    demonstration sequence. *)
Lemma ScannerTask_items_demo (stray : Z -> list byte) (n : nat) :
  forall a : nat,
    Z.of_nat (a + n) <= INT_MAX + 1 ->
    ScannerTask_items stray (Z.of_nat a) n =
    map (fun j => mkSSID (strncpy (nth (j mod 6) demoSSIDs []) SSID_SIZE))
      (seq a n).
Proof.
  unfold INT_MAX.
  induction n as [|n IH]; intros a Ha; [reflexivity|].
  cbn [ScannerTask_items seq map].
  rewrite demoSSIDs_at_index. f_equal.
  destruct n as [|n]; [reflexivity|].
  rewrite int_incr_small by (unfold INT_MIN, INT_MAX; lia).
  replace (Z.of_nat a + 1) with (Z.of_nat (S a)) by lia.
  apply IH. lia.
Qed.

Lemma demo_item_intact (j : nat) :
  In (c_str (strncpy (nth (j mod 6) demoSSIDs []) SSID_SIZE)) demoSSIDs /\
  well_formed SSID_SIZE (strncpy (nth (j mod 6) demoSSIDs []) SSID_SIZE).
Proof.
  assert (Hin := demoSSIDs_nth_In j).
  assert (Hs := proj1 (Forall_forall _ _) demoSSIDs_short _ Hin).
  assert (Hc := proj1 (Forall_forall _ _) demoSSIDs_no_NUL _ Hin).
  destruct (strncpy_well_formed SSID_SIZE _ Hs) as (Hwf & Heq).
  split; [|exact Hwf]. cbn beta in Hc. now rewrite Heq, Hc.
Qed.

Lemma ScannerTask_items_intact (stray : Z -> list byte) (n a : nat) :
  Z.of_nat (a + n) <= INT_MAX + 1 ->
  Forall (fun e => In (c_str (ssid e)) demoSSIDs /\
                   well_formed SSID_SIZE (ssid e))
    (ScannerTask_items stray (Z.of_nat a) n).
Proof.
  intros Ha. rewrite ScannerTask_items_demo by exact Ha.
  apply Forall_forall. intros e He. apply in_map_iff in He.
  destruct He as (j & <- & _). apply demo_item_intact.
Qed.

Lemma unauthorized_app (a b : list SSID_t) :
  unauthorized (a ++ b) = unauthorized a ++ unauthorized b.
Proof. apply filter_app. Qed.

(** ** How many unauthorized events [ScannerTask] builds *)

Lemma iter_from_zero (n : nat) :
  Nat.iter n int_incr 0 = wrap_int (Z.of_nat n).
Proof. exact (iter_int_incr n 0). Qed.

(** Six iterations from a multiple of six, the index in range: the six
    demonstration identifiers, three of them unauthorized. *)
Lemma ScannerTask_alerts_period (stray : Z -> list byte) (q : nat) :
  Z.of_nat (q * 6 + 6) <= INT_MAX + 1 ->
  List.length
    (unauthorized (ScannerTask_items stray (Z.of_nat (q * 6)) 6)) = 3%nat.
Proof.
  intros H. rewrite ScannerTask_items_demo by exact H.
  cbn [seq map].
  assert (E0 : ((q * 6) mod 6 = 0)%nat) by apply Nat.Div0.mod_mul.
  assert (E1 : (S (q * 6) mod 6 = 1)%nat) by apply (Nat.Div0.mod_add 1 q 6).
  assert (E2 : (S (S (q * 6)) mod 6 = 2)%nat)
    by apply (Nat.Div0.mod_add 2 q 6).
  assert (E3 : (S (S (S (q * 6))) mod 6 = 3)%nat)
    by apply (Nat.Div0.mod_add 3 q 6).
  assert (E4 : (S (S (S (S (q * 6)))) mod 6 = 4)%nat)
    by apply (Nat.Div0.mod_add 4 q 6).
  assert (E5 : (S (S (S (S (S (q * 6))))) mod 6 = 5)%nat)
    by apply (Nat.Div0.mod_add 5 q 6).
  rewrite E0, E1, E2, E3, E4, E5. reflexivity.
Qed.

Lemma ScannerTask_alerts_periods (stray : Z -> list byte) (q : nat) :
  Z.of_nat (q * 6) <= INT_MAX + 1 ->
  List.length (unauthorized (ScannerTask_items stray 0 (q * 6)))
  = (3 * q)%nat.
Proof.
  induction q as [|q IH]; intros H; [reflexivity|].
  replace (S q * 6)%nat with (q * 6 + 6)%nat in * by lia.
  rewrite ScannerTask_items_app, unauthorized_app, length_app.
  rewrite IH by lia.
  rewrite iter_from_zero, wrap_int_id by (unfold INT_MIN, INT_MAX in *; lia).
  rewrite ScannerTask_alerts_period by exact H. lia.
Qed.

(** The iterations before the index overflows: [a] = 2^31 of them give
    2^30 unauthorized events. *)
Lemma ScannerTask_alerts_before_overflow (stray : Z -> list byte) (a : nat) :
  Z.of_nat a = 2147483648 ->
  Z.of_nat (List.length (unauthorized (ScannerTask_items stray 0 a)))
  = 1073741824.
Proof.
  intros Ha.
  assert (Hq : exists q : nat, a = (q * 6 + 2)%nat /\ Z.of_nat q = 357913941).
  { exists (Z.to_nat 357913941). split; [|apply Z2Nat.id; lia].
    apply Nat2Z.inj. rewrite Ha, Nat2Z.inj_add, Nat2Z.inj_mul, Z2Nat.id by lia.
    reflexivity. }
  destruct Hq as (q & -> & Hq).
  rewrite ScannerTask_items_app, unauthorized_app, length_app.
  rewrite ScannerTask_alerts_periods by (unfold INT_MAX; lia).
  rewrite iter_from_zero, wrap_int_id by (unfold INT_MIN, INT_MAX; lia).
  rewrite ScannerTask_items_demo by (unfold INT_MAX; lia).
  cbn [seq map].
  assert (E0 : ((q * 6) mod 6 = 0)%nat) by apply Nat.Div0.mod_mul.
  assert (E1 : (S (q * 6) mod 6 = 1)%nat) by apply (Nat.Div0.mod_add 1 q 6).
  rewrite E0, E1.
  change (List.length
            (unauthorized
               [mkSSID (strncpy (nth 0 demoSSIDs []) SSID_SIZE);
                mkSSID (strncpy (nth 1 demoSSIDs []) SSID_SIZE)]))
    with 1%nat.
  lia.
Qed.

Lemma rem_shift (z j : Z) :
  Z.rem z 6 = -5 -> z + 6 <= 0 -> 0 <= j <= 5 -> Z.rem (z + j) 6 = j - 5.
Proof.
  intros H Hz Hj. Z.to_euclidean_division_equations. lia.
Qed.

(** Six iterations with a negative index, entered where the remainder is
    -5: five reads outside the array, then [demoSSIDs[0]]. When what lies
    outside is the empty string, five unauthorized events. *)
Lemma ScannerTask_alerts_negative_period (z : Z) :
  INT_MIN <= z -> z + 6 <= 0 -> Z.rem z 6 = -5 ->
  List.length
    (unauthorized (ScannerTask_items (fun _ => []) z 6)) = 5%nat /\
  Nat.iter 6 int_incr z = z + 6.
Proof.
  intros Hmin Hz Hrem.
  assert (Hinc : forall j k : Z, 0 <= j <= 5 -> k = j + 1 ->
            int_incr (z + j) = z + k).
  { intros j k Hj ->.
    rewrite int_incr_small by (unfold INT_MIN, INT_MAX in *; lia). lia. }
  assert (Hat : forall j : Z, 0 <= j <= 5 ->
            demoSSIDs_at (fun _ => []) (z + j) =
            if j =? 5 then lit "IoT_Secure" else []).
  { intros j Hj. unfold demoSSIDs_at, int_rem.
    rewrite (rem_shift z j Hrem Hz Hj).
    assert (C : j = 0 \/ j = 1 \/ j = 2 \/ j = 3 \/ j = 4 \/ j = 5) by lia.
    repeat destruct C as [->|C]; try subst j; reflexivity. }
  assert (I0 := Hinc 0 1 ltac:(lia) eq_refl).
  assert (A0 := Hat 0 ltac:(lia)).
  replace (z + 0) with z in I0, A0 by lia.
  split.
  - cbn [ScannerTask_items].
    rewrite A0, I0, (Hat 1), (Hinc 1 2), (Hat 2), (Hinc 2 3), (Hat 3),
      (Hinc 3 4), (Hat 4), (Hinc 4 5), (Hat 5) by lia.
    reflexivity.
  - cbn [Nat.iter nat_rect].
    rewrite I0, (Hinc 1 2), (Hinc 2 3), (Hinc 3 4), (Hinc 4 5), (Hinc 5 6)
      by lia.
    reflexivity.
Qed.

Lemma ScannerTask_alerts_negative_periods (b : nat) : forall z : Z,
  INT_MIN <= z -> z + 6 * Z.of_nat b <= 0 -> Z.rem z 6 = -5 ->
  List.length
    (unauthorized (ScannerTask_items (fun _ => []) z (b * 6))) = (5 * b)%nat.
Proof.
  induction b as [|b IH]; intros z Hmin Hz Hrem; [reflexivity|].
  change (S b * 6)%nat with (6 + b * 6)%nat.
  destruct (ScannerTask_alerts_negative_period z Hmin) as (Hfive & Hiter);
    [lia | exact Hrem |].
  rewrite ScannerTask_items_app, unauthorized_app, length_app, Hfive, Hiter.
  rewrite IH; [lia | lia | lia |]. 
  revert Hrem Hz. clear. intros. Z.to_euclidean_division_equations. lia.
Qed.

(** From start-up, on a stack whose words around [demoSSIDs] point at
    empty strings: 2^31 iterations up to the overflow of the index, three
    more, [b] periods of six with a negative index and two iterations more
    give 2^31 unauthorized events. *)
Lemma ScannerTask_alerts_to_overflow (a b : nat) :
  Z.of_nat a = 2147483648 ->
  Z.of_nat b = 214748364 ->
  Z.of_nat
    (List.length
       (unauthorized
          (ScannerTask_items (fun _ => []) 0 (a + 3 + b * 6 + 2))))
  = 2147483648.
Proof.
  intros Ha Hb.
  rewrite !ScannerTask_items_app, !unauthorized_app, !length_app.
  rewrite !iter_from_zero, !Nat2Z.inj_add, Nat2Z.inj_mul, Ha, Hb.
  replace (wrap_int 2147483648) with INT_MIN by reflexivity.
  replace (wrap_int (2147483648 + Z.of_nat 3)) with (-2147483645)
    by reflexivity.
  replace (wrap_int (2147483648 + Z.of_nat 3 + 214748364 * Z.of_nat 6))
    with (-858993461) by reflexivity.
  rewrite (ScannerTask_alerts_before_overflow _ a Ha).
  rewrite (ScannerTask_alerts_negative_periods b (-2147483645));
    [| unfold INT_MIN; lia | lia | reflexivity].
  replace (List.length
             (unauthorized (ScannerTask_items (fun _ => []) INT_MIN 3)))
    with 2%nat by (vm_compute; reflexivity).
  replace (List.length
             (unauthorized (ScannerTask_items (fun _ => []) (-858993461) 2)))
    with 2%nat by (vm_compute; reflexivity).
  lia.
Qed.

(** ** [CheckerTask] alone, and in turn with [ScannerTask] *)

(** [CheckerTask] alone takes the events that wait, one per iteration. *)
Lemma CheckerTask_drains (evs : list SSID_t) :
  forall (s : Sys) (rest : list SSID_t),
    items (ssidQueue s) = evs ++ rest ->
    secureListMutex s = None ->
    exists s' : Sys,
      exec (repeat Checker (List.length evs)) s = Some s' /\
      received_ssids (new_events s s') = evs /\
      items (ssidQueue s') = rest.
Proof.
  induction evs as [|e evs IH]; intros s rest Hq Hfree.
  - exists s. split; [reflexivity|]. now rewrite new_events_refl.
  - cbn [app] in Hq.
    assert (Hstep := step_Checker s e (evs ++ rest) Hq Hfree).
    destruct (IH (CheckerTask_after e (evs ++ rest)
                    (set_pxCurrentTCB Checker s)) rest eq_refl
                (eq_trans (step_mutex _ _ _ Hstep) Hfree))
      as (s' & Hexec & Hrecv & Hrest).
    exists s'. split; [|split; [|exact Hrest]].
    + cbn [List.length repeat]. apply exec_cons. eauto.
    + rewrite (new_events_step _ _ _ _ _ Hstep Hexec).
      unfold received_ssids in *. rewrite collect_app, Hrecv.
      rewrite CheckerTask_events. simpl_collect. reflexivity.
Qed.

(** [ScannerTask] then [CheckerTask], from an empty event queue: the event
    built is taken at once. *)
Lemma ScannerChecker_round (s : Sys) :
  items (ssidQueue s) = [] ->
  (0 < uxLength (ssidQueue s))%nat ->
  secureListMutex s = None ->
  exists s' : Sys,
    exec [Scanner; Checker] s = Some s' /\
    items (ssidQueue s') = [] /\
    uxLength (ssidQueue s') = uxLength (ssidQueue s) /\
    secureListMutex s' = None /\
    ScannerLocals.idx (scanner s') = int_incr (ScannerLocals.idx (scanner s)) /\
    ScannerLocals.stray (scanner s') = ScannerLocals.stray (scanner s) /\
    received_ssids (new_events s s') =
      [mkSSID
         (strncpy
            (demoSSIDs_at (ScannerLocals.stray (scanner s))
               (ScannerLocals.idx (scanner s))) SSID_SIZE)].
Proof.
  intros Hsq Hsux Hfree.
  set (src := demoSSIDs_at (ScannerLocals.stray (scanner s))
                (ScannerLocals.idx (scanner s))).
  set (item := mkSSID (strncpy src SSID_SIZE)).
  assert (Hstep1 : step s Scanner
                     (ScannerTask_after src (set_pxCurrentTCB Scanner s)))
    by now constructor.
  assert (Hev1 := ScannerTask_events src s).
  fold item in Hev1. rewrite (queue_send_empty _ item Hsq Hsux) in Hev1.
  cbn [snd] in Hev1.
  assert (Hq1 : ssidQueue (ScannerTask_after src (set_pxCurrentTCB Scanner s))
                = mkQueue (uxLength (ssidQueue s)) [item]).
  { change (ssidQueue (ScannerTask_after src (set_pxCurrentTCB Scanner s)))
      with (fst (queue_send (ssidQueue s) item)).
    now rewrite (queue_send_empty _ item Hsq Hsux). }
  assert (Hi1 : ScannerLocals.idx
                  (scanner (ScannerTask_after src (set_pxCurrentTCB Scanner s)))
                = int_incr (ScannerLocals.idx (scanner s))) by reflexivity.
  assert (Hy1 : ScannerLocals.stray
                  (scanner (ScannerTask_after src (set_pxCurrentTCB Scanner s)))
                = ScannerLocals.stray (scanner s)) by reflexivity.
  assert (Hm1 := step_mutex _ _ _ Hstep1). rewrite Hfree in Hm1.
  revert Hstep1 Hev1 Hq1 Hi1 Hy1 Hm1.
  generalize (ScannerTask_after src (set_pxCurrentTCB Scanner s)).
  intros s1 Hstep1 Hev1 Hq1 Hi1 Hy1 Hm1.
  assert (Hitems1 : items (ssidQueue s1) = item :: []) by now rewrite Hq1.
  assert (Hstep2 := step_Checker s1 item [] Hitems1 Hm1).
  assert (Hev2 := CheckerTask_events item [] s1).
  assert (Hq2 : ssidQueue (CheckerTask_after item [] (set_pxCurrentTCB Checker s1))
                = mkQueue (uxLength (ssidQueue s1)) []) by reflexivity.
  assert (Hi2 : scanner (CheckerTask_after item [] (set_pxCurrentTCB Checker s1))
                = scanner s1) by reflexivity.
  assert (Hm2 := step_mutex _ _ _ Hstep2). rewrite Hm1 in Hm2.
  revert Hstep2 Hev2 Hq2 Hi2 Hm2.
  generalize (CheckerTask_after item [] (set_pxCurrentTCB Checker s1)).
  intros s2 Hstep2 Hev2 Hq2 Hi2 Hm2.
  assert (Hexec2 : exec [Checker] s1 = Some s2).
  { apply exec_cons. exists s2. split; [exact Hstep2 | reflexivity]. }
  assert (Hexec1 : exec [Scanner; Checker] s = Some s2).
  { apply exec_cons. exists s1. split; [exact Hstep1 | exact Hexec2]. }
  exists s2. split; [exact Hexec1|].
  split; [now rewrite Hq2|]. split; [now rewrite Hq2, Hq1|].
  split; [exact Hm2|]. split; [now rewrite Hi2|]. split; [now rewrite Hi2|].
  rewrite (new_events_step _ _ _ _ _ Hstep1 Hexec2).
  rewrite (new_events_step _ _ _ _ _ Hstep2 (exec_nil s2)).
  rewrite new_events_refl, Hev1, Hev2.
  unfold received_ssids. simpl_collect. reflexivity.
Qed.

(** [n] such rounds: every event built is received, in order. *)
Lemma ScannerChecker_rounds (n : nat) : forall s : Sys,
  items (ssidQueue s) = [] ->
  (0 < uxLength (ssidQueue s))%nat ->
  secureListMutex s = None ->
  exists s' : Sys,
    exec (List.concat (repeat [Scanner; Checker] n)) s = Some s' /\
    items (ssidQueue s') = [] /\
    uxLength (ssidQueue s') = uxLength (ssidQueue s) /\
    secureListMutex s' = None /\
    received_ssids (new_events s s') =
      ScannerTask_items (ScannerLocals.stray (scanner s))
        (ScannerLocals.idx (scanner s)) n.
Proof.
  induction n as [|n IH]; intros s Hsq Hsux Hfree.
  - exists s. split; [reflexivity|]. rewrite new_events_refl. auto.
  - destruct (ScannerChecker_round s Hsq Hsux Hfree)
      as (s1 & He1 & Hsq1 & Hux1 & Hm1 & Hi1 & Hy1 & Hr1).
    destruct (IH s1 Hsq1) as (s' & He & Hsq' & Hux' & Hm' & Hr');
      [now rewrite Hux1 | exact Hm1 |].
    exists s'. cbn [repeat List.concat].
    split; [apply exec_app; eauto|]. split; [exact Hsq'|].
    split; [congruence|]. split; [exact Hm'|].
    rewrite (new_events_exec_app _ _ _ _ _ He1 He).
    unfold received_ssids in *. rewrite collect_app, Hr1, Hr', Hi1, Hy1.
    reflexivity.
Qed.

(** Every event in the event queue is a 32-byte array if those present at
    the start are. *)
Lemma exec_received_sized (sched : list TaskId) (s s' : Sys) :
  Forall (fun e => List.length (ssid e) = SSID_SIZE) (items (ssidQueue s)) ->
  exec sched s = Some s' ->
  Forall (fun e => List.length (ssid e) = SSID_SIZE)
    (received_ssids (new_events s s')).
Proof.
  intros H0 Hexec. apply Forall_forall. intros e Hin.
  assert (Hfifo := exec_fifo_ssid _ _ _ Hexec).
  assert (He : In e (items (ssidQueue s) ++ enqueued_ssids (new_events s s'))).
  { rewrite Hfifo. apply in_or_app. now left. }
  apply in_app_or in He. destruct He as [He|He].
  - exact (proj1 (Forall_forall _ _) H0 _ He).
  - rewrite enqueued_ssids_sends in He. apply in_map_iff in He.
    destruct He as (ir & <- & Hir). apply filter_In in Hir.
    destruct Hir as (Hir & _).
    assert (Hs : In (fst ir) (map fst (scanner_sends (new_events s s'))))
      by now apply in_map.
    rewrite (proj1 (exec_scanner _ _ _ Hexec)) in Hs.
    exact (proj1 (Forall_forall _ _) (ScannerTask_items_sized _ _ _) _ Hs).
Qed.

(** * The claims *)

(** ** C1: the lookup answers 1 exactly on the entries of the registry *)

(** C1. For every identifier [p], a call of [is_secure_network] that finds
    the mutex free returns, and it returns 1 if and only if the string at
    [p] is, byte for byte, one of the five entries of [secureNetworks];
    otherwise it returns 0. There is no other value: no match is an
    ordinary result. *)
Theorem is_secure_network_exact_match (p : list byte) (s : Sys) :
  secureListMutex s = None ->
  exists (r : Z) (s' : Sys),
    is_secure_network p s = Some (r, s') /\
    (r = 1 <-> In (c_str p) secureNetworks) /\
    (r = 0 <-> ~ In (c_str p) secureNetworks) /\
    List.length secureNetworks = MAX_SSIDS.
Proof.
  intros Hfree. rewrite (is_secure_network_run p s Hfree), existsb_matches.
  eexists. eexists. split; [reflexivity|].
  assert (H := authorized_iff p).
  destruct (authorized p).
  - repeat split; try tauto; try discriminate.
  - assert (Hn : ~ In (c_str p) secureNetworks).
    { intros Hin. apply H in Hin. discriminate. }
    repeat split; try tauto; try discriminate.
Qed.

Lemma is_secure_network_exact_match_witness :
  exists (r : Z) (s' : Sys),
    is_secure_network (lit "IoT_Secure") (boot (mkGarbage [] [] [] []))
      = Some (r, s') /\
    (r = 1 <-> In (c_str (lit "IoT_Secure")) secureNetworks) /\
    (r = 0 <-> ~ In (c_str (lit "IoT_Secure")) secureNetworks) /\
    List.length secureNetworks = MAX_SSIDS.
Proof.
  apply (is_secure_network_exact_match (lit "IoT_Secure")
           (boot (mkGarbage [] [] [] []))).
  reflexivity.
Defined.

(** The comparison is case-sensitive and takes no prefix for a match. *)
Example is_secure_network_case :
  option_map fst
    (is_secure_network (lit "iot_secure") (boot (mkGarbage [] [] [] [])))
  = Some 0 /\
  option_map fst
    (is_secure_network (lit "GuestNet") (boot (mkGarbage [] [] [] [])))
  = Some 1 /\
  option_map fst
    (is_secure_network (lit "GuestNet2") (boot (mkGarbage [] [] [] [])))
  = Some 0 /\
  option_map fst
    (is_secure_network (lit "Guest") (boot (mkGarbage [] [] [] [])))
  = Some 0.
Proof. repeat split; vm_compute; reflexivity. Qed.

(** ** C4: the registry is only read under the mutex *)

(** C4. After any execution that starts with the mutex free, every read of
    the registry made so far was made by the task holding the mutex, and
    the mutex is free again. A call of [is_secure_network] made then takes
    the mutex first, reads the entries 0 to k-1 while holding it, gives it
    back once, last, and returns with the mutex free; the scan stops early
    (k below 5) only on a match, and the give still follows. *)
Theorem is_secure_network_lock_discipline (p : list byte)
    (sched : list TaskId) (s0 s : Sys) :
  secureListMutex s0 = None ->
  exec sched s0 = Some s ->
  Forall (fun a => snd a = Some (fst a))
    (registry_accesses (new_events s0 s)) /\
  secureListMutex s = None /\
  exists (r : Z) (s' : Sys) (k : nat),
    is_secure_network p s = Some (r, s') /\
    (1 <= k <= MAX_SSIDS)%nat /\
    new_events s s' =
      (pxCurrentTCB s, SemaphoreTake portMAX_DELAY)
      :: map (fun i => (pxCurrentTCB s, RegistryRead i (Some (pxCurrentTCB s))))
           (seq 0 k)
      ++ [(pxCurrentTCB s, SemaphoreGive)] /\
    secureListMutex s' = None /\
    (r = 1 -> nth_error secureNetworks (k - 1) = Some (c_str p)) /\
    (r = 0 -> k = MAX_SSIDS).
Proof.
  intros Hfree0 Hexec.
  assert (Hfree : secureListMutex s = None).
  { rewrite (exec_mutex _ _ _ Hexec). exact Hfree0. }
  split; [now apply (exec_registry_accesses sched)|].
  split; [exact Hfree|].
  rewrite (is_secure_network_run p s Hfree).
  eexists. eexists. exists (scan_reads p secureNetworks).
  split; [reflexivity|].
  split; [apply scan_reads_bounds; discriminate|].
  split.
  { apply new_events_app. rewrite trace_log_events. f_equal.
    cbn [map]. f_equal. unfold registry_reads.
    now rewrite map_app, map_map. }
  split; [exact Hfree|].
  destruct (existsb (matches p) secureNetworks) eqn:E.
  - split; [|discriminate]. intros _.
    destruct (scan_reads_hit p secureNetworks E) as (e & Hn & Hm).
    rewrite Hn. f_equal. unfold matches in Hm.
    apply Z.eqb_eq, strcmp_eq0 in Hm. rewrite Hm.
    symmetry. apply secureNetworks_c_str. eapply nth_error_In, Hn.
  - split; [discriminate|]. intros _. now apply scan_reads_miss.
Qed.

Lemma is_secure_network_lock_discipline_witness :
  let g := mkGarbage [] [] [] [] in
  let s :=
    match exec [Scanner; Checker] (boot g) with
    | Some s => s
    | None => boot g
    end in
  Forall (fun a => snd a = Some (fst a))
    (registry_accesses (new_events (boot g) s)) /\
  secureListMutex s = None /\
  exists (r : Z) (s' : Sys) (k : nat),
    is_secure_network (lit "HomeNet_5G") s = Some (r, s') /\
    (1 <= k <= MAX_SSIDS)%nat /\
    new_events s s' =
      (pxCurrentTCB s, SemaphoreTake portMAX_DELAY)
      :: map (fun i => (pxCurrentTCB s, RegistryRead i (Some (pxCurrentTCB s))))
           (seq 0 k)
      ++ [(pxCurrentTCB s, SemaphoreGive)] /\
    secureListMutex s' = None /\
    (r = 1 ->
     nth_error secureNetworks (k - 1) = Some (c_str (lit "HomeNet_5G"))) /\
    (r = 0 -> k = MAX_SSIDS).
Proof.
  intros g s.
  apply (is_secure_network_lock_discipline (lit "HomeNet_5G")
           [Scanner; Checker] (boot g) s).
  - reflexivity.
  - vm_compute. reflexivity.
Defined.

(** A task that finds the mutex taken does not get to the registry. *)
Lemma is_secure_network_waits (p : list byte) (h : TaskId) (s : Sys) :
  secureListMutex s = Some h -> is_secure_network p s = None.
Proof. apply is_secure_network_blocked. Qed.

(** ** C5: the priority of [LoggerTask] *)

(** C5, evaluated on the code. [app_main] creates LoggerTask with priority
    3, CheckerTask and SupervisorTask with 2 and ScannerTask with 1. In
    FreeRTOS the greater number wins, so LoggerTask has the highest
    priority of the four, not the lowest: it preempts each of the other
    three, CheckerTask included, and none of them preempts it. *)
Theorem LoggerTask_priority_is_highest :
  priority_of Logger = Some 3 /\
  priority_of Checker = Some 2 /\
  priority_of Supervisor = Some 2 /\
  priority_of Scanner = Some 1 /\
  preempts Logger Checker = true /\
  preempts Logger Scanner = true /\
  preempts Logger Supervisor = true /\
  (forall t : TaskId, preempts t Logger = false).
Proof.
  repeat split; try reflexivity. intros []; reflexivity.
Qed.

(** ** C2: one record per event, in order *)

(** The record built for a 32-byte event: the OK text when the identifier
    is in the registry, an ALERTA record otherwise. *)
Lemma classify_answers (e : SSID_t) (l : CheckerLocals.t) :
  List.length (ssid e) = SSID_SIZE ->
  (In (c_str (ssid e)) secureNetworks ->
   record_text (CheckerLocals.logMsg (CheckerTask_classify e l))
   = ok_text (ssid e)) /\
  (~ In (c_str (ssid e)) secureNetworks ->
   firstn (List.length ALERTA_PREFIX)
     (record_text (CheckerLocals.logMsg (CheckerTask_classify e l)))
   = ALERTA_PREFIX /\
   (In NUL (ssid e) ->
    exists n : Z,
      record_text (CheckerLocals.logMsg (CheckerTask_classify e l))
      = alert_text (ssid e) n)).
Proof.
  intros Hlen.
  assert (Hs : (strlen (ssid e) <= SSID_SIZE)%nat).
  { unfold strlen. rewrite <- Hlen. apply c_str_length_le. }
  rewrite (record_text_whole e l Hs).
  destruct (authorized (ssid e)) eqn:E.
  - apply authorized_iff in E. split; [reflexivity | tauto].
  - split.
    + intros Hin. apply authorized_iff in Hin. congruence.
    + intros _. split.
      * unfold alert_text. now apply firstn_full.
      * intros _. eexists. reflexivity.
Qed.

Lemma CheckerTask_records_answer (evs : list SSID_t) :
  forall l : CheckerLocals.t,
    Forall2
      (fun e m =>
         List.length (ssid e) = SSID_SIZE ->
         (In (c_str (ssid e)) secureNetworks ->
          record_text m = ok_text (ssid e)) /\
         (~ In (c_str (ssid e)) secureNetworks ->
          firstn (List.length ALERTA_PREFIX) (record_text m) = ALERTA_PREFIX /\
          (In NUL (ssid e) ->
           exists n : Z, record_text m = alert_text (ssid e) n)))
      evs (CheckerTask_records l evs).
Proof.
  induction evs as [|e evs IH]; intros l; cbn [CheckerTask_records];
    constructor; [|apply IH].
  apply classify_answers.
Qed.

(** C2. [CheckerTask] takes one event per iteration of its loop, and in any
    execution the events it has taken are, in order, the events that were
    in the event queue or entered it, less those still waiting (first in,
    first out: no event is taken twice, none is skipped). For these N
    events it has built exactly N records, the k-th for the k-th event: for
    a 32-byte event whose identifier is an entry of the registry the OK
    text of that identifier, for any other an ALERTA record, which carries
    the identifier and a count when the event holds its terminator; and the
    events are 32-byte arrays whenever those waiting at the start are. The log
    queue is first-in first-out too, and when no send met a full log queue
    the records that entered it are all N records, in order. No event is
    left behind: the next iteration of [CheckerTask] takes the event at the
    head of the queue, builds its record and leaves the others, and as many
    iterations as there are events waiting take them all, one record
    each. *)
Theorem CheckerTask_one_record_per_event (sched : list TaskId) (s s' : Sys) :
  exec sched s = Some s' ->
  items (ssidQueue s) ++ enqueued_ssids (new_events s s') =
    received_ssids (new_events s s') ++ items (ssidQueue s') /\
  List.length (received_ssids (new_events s s')) = cycles Checker sched /\
  List.length (checker_sends (new_events s s')) =
    List.length (received_ssids (new_events s s')) /\
  Forall2
    (fun e m =>
       List.length (ssid e) = SSID_SIZE ->
       (In (c_str (ssid e)) secureNetworks ->
        record_text m = ok_text (ssid e)) /\
       (~ In (c_str (ssid e)) secureNetworks ->
        firstn (List.length ALERTA_PREFIX) (record_text m) = ALERTA_PREFIX /\
        (In NUL (ssid e) ->
         exists n : Z, record_text m = alert_text (ssid e) n)))
    (received_ssids (new_events s s'))
    (map fst (checker_sends (new_events s s'))) /\
  (Forall (fun e => List.length (ssid e) = SSID_SIZE) (items (ssidQueue s)) ->
   Forall (fun e => List.length (ssid e) = SSID_SIZE)
     (received_ssids (new_events s s'))) /\
  items (logQueue s) ++ enqueued_logs (new_events s s') =
    received_logs (new_events s s') ++ items (logQueue s') /\
  (Forall (fun mr => snd mr = pdPASS) (checker_sends (new_events s s')) ->
   enqueued_logs (new_events s s') =
   map fst (checker_sends (new_events s s'))) /\
  (secureListMutex s = None ->
   (forall (item : SSID_t) (rest : list SSID_t),
       items (ssidQueue s') = item :: rest ->
       exists s'' : Sys,
         final (dispatch Checker s') = Some s'' /\
         received_ssids (new_events s' s'') = [item] /\
         map fst (checker_sends (new_events s' s'')) =
           [CheckerLocals.logMsg (CheckerTask_classify item (checker s'))] /\
         items (ssidQueue s'') = rest) /\
   (exists s'' : Sys,
       exec (repeat Checker (List.length (items (ssidQueue s')))) s'
         = Some s'' /\
       received_ssids (new_events s' s'') = items (ssidQueue s') /\
       List.length (checker_sends (new_events s' s'')) =
         List.length (items (ssidQueue s')) /\
       items (ssidQueue s'') = [])).
Proof.
  intros Hexec.
  destruct (exec_checker _ _ _ Hexec) as (Hrecs & _ & Hcyc).
  split; [now apply (exec_fifo_ssid sched)|].
  split; [exact Hcyc|].
  split.
  { rewrite <- (length_map fst), Hrecs. apply CheckerTask_records_length. }
  split; [rewrite Hrecs; apply CheckerTask_records_answer|].
  split; [intros Hsz; now apply (exec_received_sized sched s s')|].
  split; [now apply (exec_fifo_log sched)|].
  split.
  { intros Hall. rewrite enqueued_logs_sends. f_equal. apply filter_id.
    revert Hall. apply Forall_impl. now intros mr ->. }
  intros Hfree.
  assert (Hfree' : secureListMutex s' = None).
  { rewrite (exec_mutex _ _ _ Hexec). exact Hfree. }
  split.
  - intros item rest Hq. eexists.
    split; [apply dispatch_step, (step_Checker s' item rest Hq Hfree')|].
    rewrite CheckerTask_events.
    unfold received_ssids, checker_sends. simpl_collect.
    repeat split.
  - destruct (CheckerTask_drains (items (ssidQueue s')) s' []
                (eq_sym (app_nil_r _)) Hfree') as (s'' & He & Hr & Hq).
    exists s''. split; [exact He|]. split; [exact Hr|]. split; [|exact Hq].
    destruct (exec_checker _ _ _ He) as (Hrecs' & _ & _).
    rewrite <- (length_map fst), Hrecs', CheckerTask_records_length.
    now rewrite Hr.
Qed.

Lemma CheckerTask_one_record_per_event_witness :
  let g := mkGarbage [] [] [] [] in
  let sched := [Scanner; Scanner; Checker; Scanner; Checker; Scanner] in
  let s' :=
    match exec sched (boot g) with
    | Some s' => s'
    | None => boot g
    end in
  items (ssidQueue (boot g)) ++ enqueued_ssids (new_events (boot g) s') =
    received_ssids (new_events (boot g) s') ++ items (ssidQueue s') /\
  List.length (received_ssids (new_events (boot g) s')) =
    cycles Checker sched /\
  List.length (checker_sends (new_events (boot g) s')) =
    List.length (received_ssids (new_events (boot g) s')) /\
  Forall2
    (fun e m =>
       List.length (ssid e) = SSID_SIZE ->
       (In (c_str (ssid e)) secureNetworks ->
        record_text m = ok_text (ssid e)) /\
       (~ In (c_str (ssid e)) secureNetworks ->
        firstn (List.length ALERTA_PREFIX) (record_text m) = ALERTA_PREFIX /\
        (In NUL (ssid e) ->
         exists n : Z, record_text m = alert_text (ssid e) n)))
    (received_ssids (new_events (boot g) s'))
    (map fst (checker_sends (new_events (boot g) s'))) /\
  Forall (fun e => List.length (ssid e) = SSID_SIZE)
    (received_ssids (new_events (boot g) s')) /\
  items (logQueue (boot g)) ++ enqueued_logs (new_events (boot g) s') =
    received_logs (new_events (boot g) s') ++ items (logQueue s') /\
  (Forall (fun mr => snd mr = pdPASS)
     (checker_sends (new_events (boot g) s')) ->
   enqueued_logs (new_events (boot g) s') =
   map fst (checker_sends (new_events (boot g) s'))) /\
  ((forall (item : SSID_t) (rest : list SSID_t),
       items (ssidQueue s') = item :: rest ->
       exists s'' : Sys,
         final (dispatch Checker s') = Some s'' /\
         received_ssids (new_events s' s'') = [item] /\
         map fst (checker_sends (new_events s' s'')) =
           [CheckerLocals.logMsg (CheckerTask_classify item (checker s'))] /\
         items (ssidQueue s'') = rest) /\
   (exists s'' : Sys,
       exec (repeat Checker (List.length (items (ssidQueue s')))) s'
         = Some s'' /\
       received_ssids (new_events s' s'') = items (ssidQueue s') /\
       List.length (checker_sends (new_events s' s'')) =
         List.length (items (ssidQueue s')) /\
       items (ssidQueue s'') = [])).
Proof.
  intros g sched s'.
  destruct (CheckerTask_one_record_per_event sched (boot g) s')
    as (H1 & H2 & H3 & H4 & H5 & H6 & H7 & H8).
  - vm_compute. reflexivity.
  - repeat (split; [assumption|]). split; [apply H5; constructor|].
    repeat (split; [assumption|]). apply H8. reflexivity.
Defined.

(** The scenario of the design document, on the demonstration sequence:
    three events give an OK record and two alerts numbered 1 and 2. *)
Example CheckerTask_scenario :
  option_map
    (fun s' => map (fun mr => record_text (fst mr))
                 (checker_sends (trace s')))
    (exec [Scanner; Scanner; Checker; Scanner; Checker; Checker]
       (boot (mkGarbage [] [] [] [])))
  = Some
      [ OK_PREFIX ++ lit "IoT_Secure";
        ALERTA_PREFIX ++ lit "EvilTwin (cont=1)";
        ALERTA_PREFIX ++ lit "RandomAP (cont=2)" ].
Proof. vm_compute. reflexivity. Qed.

(** ** C3: the alert counter *)



(** From start-up, [ScannerTask] and [CheckerTask] taking turns, on a
    stack whose words around [demoSSIDs] point at empty strings: after
    2^31 + 3 + 6 [b] + 2 rounds, [b] being 214748364, [CheckerTask] has
    received 2^31 unauthorized events and its counter is at -2^31. *)
Lemma alertCounter_after_rounds (a b : nat) :
  Z.of_nat a = 2147483648 ->
  Z.of_nat b = 214748364 ->
  Z.of_nat (a + 3 + b * 6 + 2) = 3435973837 /\
  exists s' : Sys,
    exec (List.concat (repeat [Scanner; Checker] (a + 3 + b * 6 + 2)))
      (boot (mkGarbage [] [] [] [])) = Some s' /\
    Z.of_nat
      (List.length
         (unauthorized
            (received_ssids (new_events (boot (mkGarbage [] [] [] [])) s'))))
      = 2147483648 /\
    CheckerLocals.alertCounter (checker s') = -2147483648.
Proof.
  intros Ha Hb. split; [lia|].
  destruct (ScannerChecker_rounds (a + 3 + b * 6 + 2)
              (boot (mkGarbage [] [] [] [])))
    as (s' & He & _ & _ & _ & Hr).
  - reflexivity.
  - cbn. unfold SSID_QUEUE_SIZE. lia.
  - reflexivity.
  - rewrite boot_idx, boot_stray in Hr.
    change (scanner_stray (mkGarbage [] [] [] []))
      with (fun _ : Z => @nil byte) in Hr.
    assert (Hcount := ScannerTask_alerts_to_overflow a b Ha Hb).
    rewrite <- Hr in Hcount.
    exists s'. split; [exact He|]. split; [exact Hcount|].
    destruct (exec_checker _ _ _ He) as (_ & Hloc & _).
    rewrite Hloc, CheckerTask_counter_wrap.
    change (CheckerLocals.alertCounter (checker (boot (mkGarbage [] [] [] []))))
      with (wrap_int 0).
    rewrite iter_int_incr, Hcount. reflexivity.
Qed.


(** ** C7: the demonstration sequence *)



(** The sequence wraps around: the seventh event is the first again. *)
Example ScannerTask_wraparound :
  option_map
    (fun s => map (fun ir => c_str (ssid (fst ir))) (scanner_sends (trace s)))
    (exec (repeat Scanner 7) (boot (mkGarbage [] [] [] [])))
  = Some [ lit "IoT_Secure"; lit "EvilTwin"; lit "RandomAP";
           lit "LabNet_Protected"; lit "Unknown_AP"; lit "HomeNet_5G";
           lit "IoT_Secure" ].
Proof. vm_compute. reflexivity. Qed.

(** [ScannerTask] alone always runs: nothing in its loop waits for ever. *)
Lemma ScannerTask_runs (n : nat) : forall s : Sys,
  exists s' : Sys, exec (repeat Scanner n) s = Some s'.
Proof.
  induction n as [|n IH]; intros s.
  - now exists s.
  - destruct (IH (ScannerTask_after
                    (demoSSIDs_at (ScannerLocals.stray (scanner s))
                       (ScannerLocals.idx (scanner s)))
                    (set_pxCurrentTCB Scanner s))) as (s' & Hexec).
    exists s'. cbn [repeat]. apply exec_cons. eexists.
    split; [now constructor | exact Hexec].
Qed.

(** After [n] iterations from start-up, [n] being 2^31, the index holds
    -2^31 and the next iteration copies what it finds two words below
    [demoSSIDs]. *)
Lemma ScannerTask_after_2pow31 (g : Garbage) (n : nat) :
  Z.of_nat n = 2147483648 ->
  cycles Scanner (repeat Scanner n) = n /\
  (n mod 6 = 2)%nat /\
  int_rem INT_MIN 6 = -2 /\
  exists s s' : Sys,
    exec (repeat Scanner n) (boot g) = Some s /\
    ScannerLocals.idx (scanner s) = INT_MIN /\
    final (dispatch Scanner s) = Some s' /\
    map fst (scanner_sends (new_events s s')) =
      [mkSSID (strncpy (scanner_stray g INT_MIN) SSID_SIZE)].
Proof.
  intros Hn. split; [apply cycles_repeat|].
  split.
  { apply Nat2Z.inj. rewrite Nat2Z.inj_mod, Hn. reflexivity. }
  split; [reflexivity|].
  destruct (ScannerTask_runs n (boot g)) as (s & Hexec).
  assert (Hidx : ScannerLocals.idx (scanner s) = INT_MIN).
  { rewrite (exec_idx _ _ _ Hexec), cycles_repeat, Hn. reflexivity. }
  assert (Hy : ScannerLocals.stray (scanner s) = scanner_stray g).
  { destruct (exec_scanner _ _ _ Hexec) as (_ & _ & _ & _ & Hy).
    now rewrite Hy. }
  exists s. eexists. split; [exact Hexec|]. split; [exact Hidx|].
  split.
  - apply dispatch_step. constructor. reflexivity.
  - rewrite ScannerTask_events, Hidx, Hy, demoSSIDs_at_INT_MIN.
    unfold scanner_sends. simpl_collect. reflexivity.
Qed.


(** ** C6: a full queue is not an error *)

(** C6. [ScannerTask] on a full event queue (in [s]): the iteration runs to
    its end. The send was made with a wait of 50 ms, not [portMAX_DELAY],
    and failed; the event is not in the queue, which is as it was, like the
    log queue and the locals of [CheckerTask]; the index moved on, the task
    slept its 500 ms, and its next iteration runs as well and builds and
    offers the next event. [CheckerTask] on a full log queue (in [c]): the
    iteration runs to its end too. The event was taken from the event queue
    and classified, the send of the record was made with a wait of 50 ms
    and failed, the log queue is as it was, and the watchdog was refreshed
    after the failed send. *)
Theorem queue_full_is_not_fatal (s c : Sys) (item : SSID_t)
    (rest : list SSID_t) :
  queue_full (ssidQueue s) = true ->
  items (ssidQueue c) = item :: rest ->
  secureListMutex c = None ->
  queue_full (logQueue c) = true ->
  (exists (src : list byte) (s1 s2 : Sys),
      src = demoSSIDs_at (ScannerLocals.stray (scanner s))
              (ScannerLocals.idx (scanner s)) /\
      final (dispatch Scanner s) = Some s1 /\
      new_events s s1 =
        [ (Scanner,
           QueueSend_ssid (mkSSID (strncpy src SSID_SIZE)) (pdMS_TO_TICKS 50)
             errQUEUE_FULL);
          (Scanner, TaskDelay (pdMS_TO_TICKS 500)) ] /\
      ssidQueue s1 = ssidQueue s /\
      logQueue s1 = logQueue s /\
      checker s1 = checker s /\
      ScannerLocals.idx (scanner s1) =
        int_incr (ScannerLocals.idx (scanner s)) /\
      final (dispatch Scanner s1) = Some s2 /\
      map fst (scanner_sends (new_events s1 s2)) =
        [mkSSID
           (strncpy
              (demoSSIDs_at (ScannerLocals.stray (scanner s))
                 (int_incr (ScannerLocals.idx (scanner s)))) SSID_SIZE)]) /\
  (exists (m : LogMessage_t) (c1 : Sys),
      final (dispatch Checker c) = Some c1 /\
      new_events c c1 =
        (Checker, QueueReceive_ssid item portMAX_DELAY)
          :: (Checker, SemaphoreTake portMAX_DELAY)
          :: map (pair Checker) (registry_reads Checker (ssid item))
          ++ [ (Checker, SemaphoreGive);
               (Checker, QueueSend_log m (pdMS_TO_TICKS 50) errQUEUE_FULL);
               (Checker, WdtReset);
               (Checker, TaskDelay (pdMS_TO_TICKS 5)) ] /\
      items (ssidQueue c1) = rest /\
      logQueue c1 = logQueue c /\
      m = CheckerLocals.logMsg (CheckerTask_classify item (checker c))).
Proof.
  intros Hfull Hq Hfree Hlfull. split.
  - set (src := demoSSIDs_at (ScannerLocals.stray (scanner s))
                  (ScannerLocals.idx (scanner s))).
    set (s1 := ScannerTask_after src (set_pxCurrentTCB Scanner s)).
    assert (Hstep : step s Scanner s1) by now constructor.
    exists src, s1. eexists.
    split; [reflexivity|].
    split; [apply dispatch_step, Hstep|].
    split.
    { unfold s1. rewrite ScannerTask_events.
      now rewrite (queue_send_full _ _ Hfull). }
    split.
    { change (ssidQueue s1)
        with (fst (queue_send (ssidQueue s) (mkSSID (strncpy src SSID_SIZE)))).
      now rewrite (queue_send_full _ _ Hfull). }
    split; [reflexivity|]. split; [reflexivity|]. split; [reflexivity|].
    split.
    { apply dispatch_step. constructor. reflexivity. }
    rewrite ScannerTask_events. reflexivity.
  - set (c1 := CheckerTask_after item rest (set_pxCurrentTCB Checker c)).
    assert (Hstep : step c Checker c1) by now constructor.
    exists (CheckerLocals.logMsg (CheckerTask_classify item (checker c))), c1.
    split; [apply dispatch_step, Hstep|].
    split.
    { unfold c1. rewrite CheckerTask_events.
      now rewrite (queue_send_full _ _ Hlfull). }
    split; [reflexivity|]. split; [|reflexivity].
    change (logQueue c1)
      with (fst (queue_send (logQueue c)
                   (CheckerLocals.logMsg
                      (CheckerTask_classify item (checker c))))).
    now rewrite (queue_send_full _ _ Hlfull).
Qed.

Lemma queue_full_is_not_fatal_witness :
  let g := mkGarbage [] [] [] [] in
  let run sched :=
    match exec sched (boot g) with Some s => s | None => boot g end in
  let s := run (repeat Scanner 10) in
  let c :=
    run (List.concat (repeat [Scanner; Checker] 10) ++ [Scanner]) in
  let item := mkSSID (strncpy (lit "Unknown_AP") SSID_SIZE) in
  (exists (src : list byte) (s1 s2 : Sys),
      src = demoSSIDs_at (ScannerLocals.stray (scanner s))
              (ScannerLocals.idx (scanner s)) /\
      final (dispatch Scanner s) = Some s1 /\
      new_events s s1 =
        [ (Scanner,
           QueueSend_ssid (mkSSID (strncpy src SSID_SIZE)) (pdMS_TO_TICKS 50)
             errQUEUE_FULL);
          (Scanner, TaskDelay (pdMS_TO_TICKS 500)) ] /\
      ssidQueue s1 = ssidQueue s /\
      logQueue s1 = logQueue s /\
      checker s1 = checker s /\
      ScannerLocals.idx (scanner s1) =
        int_incr (ScannerLocals.idx (scanner s)) /\
      final (dispatch Scanner s1) = Some s2 /\
      map fst (scanner_sends (new_events s1 s2)) =
        [mkSSID
           (strncpy
              (demoSSIDs_at (ScannerLocals.stray (scanner s))
                 (int_incr (ScannerLocals.idx (scanner s)))) SSID_SIZE)]) /\
  (exists (m : LogMessage_t) (c1 : Sys),
      final (dispatch Checker c) = Some c1 /\
      new_events c c1 =
        (Checker, QueueReceive_ssid item portMAX_DELAY)
          :: (Checker, SemaphoreTake portMAX_DELAY)
          :: map (pair Checker) (registry_reads Checker (ssid item))
          ++ [ (Checker, SemaphoreGive);
               (Checker, QueueSend_log m (pdMS_TO_TICKS 50) errQUEUE_FULL);
               (Checker, WdtReset);
               (Checker, TaskDelay (pdMS_TO_TICKS 5)) ] /\
      items (ssidQueue c1) = [] /\
      logQueue c1 = logQueue c /\
      m = CheckerLocals.logMsg (CheckerTask_classify item (checker c))).
Proof.
  intros g run s c item.
  apply (queue_full_is_not_fatal s c item []).
  - vm_compute. reflexivity.
  - vm_compute. reflexivity.
  - vm_compute. reflexivity.
  - vm_compute. reflexivity.
Defined.

(** ** C9: the supervisor *)

(** C9. One iteration of [SupervisorTask] always runs; it makes one call,
    the sleep of 1000 ms, and leaves both queues, the mutex and the locals
    of the three other tasks (the alert counter among them) as they were.
    It makes no call to the watchdog. *)
Theorem SupervisorTask_changes_nothing (s : Sys) :
  exists s' : Sys,
    final (dispatch Supervisor s) = Some s' /\
    new_events s s' = [(Supervisor, TaskDelay (pdMS_TO_TICKS 1000))] /\
    ssidQueue s' = ssidQueue s /\
    logQueue s' = logQueue s /\
    secureListMutex s' = secureListMutex s /\
    scanner s' = scanner s /\
    checker s' = checker s /\
    logger s' = logger s /\
    pxCurrentTCB s' = Supervisor.
Proof.
  eexists. split; [apply dispatch_step; constructor|].
  split; [apply SupervisorTask_events|].
  repeat split.
Qed.

(** ** C8: what the queues carry *)

Lemma uninitialized_length (n : nat) (junk : list byte) :
  List.length (uninitialized n junk) = n.
Proof.
  unfold uninitialized.
  rewrite length_firstn, length_app, repeat_length. lia.
Qed.



(** Once the index is negative, what [ScannerTask] puts in the event queue
    is what it finds outside [demoSSIDs]. *)
Lemma ScannerTask_enqueues_stray (g : Garbage) (n : nat) :
  Z.of_nat n = 2147483648 ->
  exists s' : Sys,
    exec (List.concat (repeat [Scanner; Checker] n) ++ [Scanner]) (boot g)
      = Some s' /\
    cycles Scanner (List.concat (repeat [Scanner; Checker] n)) = n /\
    items (ssidQueue s') =
      [mkSSID (strncpy (scanner_stray g INT_MIN) SSID_SIZE)] /\
    In (mkSSID (strncpy (scanner_stray g INT_MIN) SSID_SIZE), pdPASS)
      (scanner_sends (new_events (boot g) s')).
Proof.
  intros Hn.
  destruct (ScannerChecker_rounds n (boot g)) as (s & He & Hsq & Hux & _ & _).
  { reflexivity. }
  { cbn. unfold SSID_QUEUE_SIZE. lia. }
  { reflexivity. }
  destruct (cycles_pairs n) as (Hc & _).
  assert (Hidx : ScannerLocals.idx (scanner s) = INT_MIN).
  { rewrite (exec_idx _ _ _ He), Hc, Hn. reflexivity. }
  assert (Hy : ScannerLocals.stray (scanner s) = scanner_stray g).
  { destruct (exec_scanner _ _ _ He) as (_ & _ & _ & _ & Hy).
    now rewrite Hy. }
  assert (Hsux : (0 < uxLength (ssidQueue s))%nat).
  { rewrite Hux. cbn. unfold SSID_QUEUE_SIZE. lia. }
  set (item := mkSSID (strncpy (scanner_stray g INT_MIN) SSID_SIZE)).
  assert (Hstep : step s Scanner
                    (ScannerTask_after (scanner_stray g INT_MIN)
                       (set_pxCurrentTCB Scanner s))).
  { constructor. now rewrite Hidx, Hy. }
  assert (Hev := ScannerTask_events (scanner_stray g INT_MIN) s).
  fold item in Hev. rewrite (queue_send_empty _ item Hsq Hsux) in Hev.
  cbn [snd] in Hev.
  assert (Hq : items (ssidQueue (ScannerTask_after (scanner_stray g INT_MIN)
                                   (set_pxCurrentTCB Scanner s))) = [item]).
  { change (ssidQueue (ScannerTask_after (scanner_stray g INT_MIN)
                         (set_pxCurrentTCB Scanner s)))
      with (fst (queue_send (ssidQueue s) item)).
    now rewrite (queue_send_empty _ item Hsq Hsux). }
  revert Hstep Hev Hq.
  generalize (ScannerTask_after (scanner_stray g INT_MIN)
                (set_pxCurrentTCB Scanner s)).
  intros s' Hstep Hev Hq.
  assert (He' : exec [Scanner] s = Some s').
  { apply exec_cons. exists s'. split; [exact Hstep | reflexivity]. }
  exists s'. split; [apply exec_app; eauto|]. split; [exact Hc|].
  split; [exact Hq|].
  rewrite (new_events_exec_app _ _ _ _ _ He He').
  rewrite (new_events_step _ _ _ _ _ Hstep (exec_nil s')), new_events_refl, Hev.
  unfold scanner_sends. rewrite collect_app. apply in_or_app. right.
  simpl_collect. now left.
Qed.


(** ** C10: when the watchdog is refreshed *)

(** C10. In any execution, [CheckerTask] has refreshed the watchdog as many
    times as it has taken events from the event queue, once per iteration
    of its loop. While the event queue is empty an iteration of
    [CheckerTask] does not run: the task waits in [xQueueReceive] and makes
    no call. An iteration that does run makes its calls in this order:
    the receive, the lookup under the mutex, the send of the record, then
    the one refresh, then the short sleep. So over a stretch that starts
    with the queue empty and in which [ScannerTask] does not run, there is
    no refresh. *)
Theorem CheckerTask_watchdog (sched : list TaskId) (s s' : Sys) :
  exec sched s = Some s' ->
  List.length (wdt_resets Checker (new_events s s')) =
    List.length (received_ssids (new_events s s')) /\
  List.length (wdt_resets Checker (new_events s s')) = cycles Checker sched /\
  (items (ssidQueue s') = [] -> final (dispatch Checker s') = None) /\
  (forall (item : SSID_t) (rest : list SSID_t),
      items (ssidQueue s') = item :: rest ->
      secureListMutex s' = None ->
      exists (m : LogMessage_t) (r : BaseType_t) (s'' : Sys),
        final (dispatch Checker s') = Some s'' /\
        new_events s' s'' =
          (Checker, QueueReceive_ssid item portMAX_DELAY)
            :: (Checker, SemaphoreTake portMAX_DELAY)
            :: map (pair Checker) (registry_reads Checker (ssid item))
            ++ [ (Checker, SemaphoreGive);
                 (Checker, QueueSend_log m (pdMS_TO_TICKS 50) r);
                 (Checker, WdtReset);
                 (Checker, TaskDelay (pdMS_TO_TICKS 5)) ]) /\
  (items (ssidQueue s) = [] -> cycles Scanner sched = 0%nat ->
   wdt_resets Checker (new_events s s') = []).
Proof.
  intros Hexec.
  destruct (exec_wdt _ _ _ Hexec) as (Hw & _).
  destruct (exec_checker _ _ _ Hexec) as (_ & _ & Hc).
  split; [now rewrite Hw, Hc|]. split; [exact Hw|]. split; [|split].
  - intros Hq. rewrite dispatch_eq. cbn [task_cycle].
    now rewrite CheckerTask_cycle_blocked.
  - intros item rest Hq Hfree.
    eexists. eexists. eexists. split.
    + apply dispatch_step. now apply (step_Checker s' item rest).
    + apply CheckerTask_events.
  - intros Hq Hsc.
    assert (Hfifo := exec_fifo_ssid _ _ _ Hexec).
    destruct (exec_scanner _ _ _ Hexec) as (_ & Hlen & _).
    rewrite Hsc in Hlen. apply length_zero_iff_nil in Hlen.
    rewrite enqueued_ssids_sends, Hlen, Hq in Hfifo. cbn in Hfifo.
    symmetry in Hfifo. apply app_eq_nil in Hfifo. destruct Hfifo as (Hr & _).
    apply length_zero_iff_nil. rewrite Hw, <- Hc, Hr. reflexivity.
Qed.

Lemma CheckerTask_watchdog_witness :
  let g := mkGarbage [] [] [] [] in
  let sched := [Scanner; Checker; Supervisor; Scanner; Logger] in
  let s' := match exec sched (boot g) with Some s' => s' | None => boot g end in
  List.length (wdt_resets Checker (new_events (boot g) s')) =
    List.length (received_ssids (new_events (boot g) s')) /\
  List.length (wdt_resets Checker (new_events (boot g) s')) =
    cycles Checker sched /\
  (items (ssidQueue s') = [] -> final (dispatch Checker s') = None) /\
  (forall (item : SSID_t) (rest : list SSID_t),
      items (ssidQueue s') = item :: rest ->
      secureListMutex s' = None ->
      exists (m : LogMessage_t) (r : BaseType_t) (s'' : Sys),
        final (dispatch Checker s') = Some s'' /\
        new_events s' s'' =
          (Checker, QueueReceive_ssid item portMAX_DELAY)
            :: (Checker, SemaphoreTake portMAX_DELAY)
            :: map (pair Checker) (registry_reads Checker (ssid item))
            ++ [ (Checker, SemaphoreGive);
                 (Checker, QueueSend_log m (pdMS_TO_TICKS 50) r);
                 (Checker, WdtReset);
                 (Checker, TaskDelay (pdMS_TO_TICKS 5)) ]) /\
  (items (ssidQueue (boot g)) = [] -> cycles Scanner sched = 0%nat ->
   wdt_resets Checker (new_events (boot g) s') = []).
Proof.
  intros g sched s'.
  apply (CheckerTask_watchdog sched (boot g) s').
  vm_compute. reflexivity.
Defined.

(** At start-up the event queue is empty and [CheckerTask] waits. *)
Example CheckerTask_waits_at_boot :
  forall g : Garbage, final (dispatch Checker (boot g)) = None.
Proof. reflexivity. Qed.

(** Over a whole execution [SupervisorTask] makes nothing but its sleeps. *)
Lemma exec_supervisor (sched : list TaskId) (s s' : Sys) :
  exec sched s = Some s' ->
  events_of Supervisor (new_events s s') =
  repeat (TaskDelay (pdMS_TO_TICKS 1000)) (cycles Supervisor sched).
Proof.
  revert sched s s'.
  apply (exec_ind_events (fun s sched tr s' =>
    events_of Supervisor tr =
    repeat (TaskDelay (pdMS_TO_TICKS 1000)) (cycles Supervisor sched))).
  - reflexivity.
  - intros s t s1 sched tr s' Hstep _ IH.
    unfold events_of, cycles in *. rewrite collect_app, IH.
    destruct Hstep as [src H|item rest Hq Hm|item rest Hq|].
    + rewrite ScannerTask_events. reflexivity.
    + rewrite CheckerTask_events.
      rewrite !collect_cons. cbn [fst TaskId_eqb]. rewrite collect_app.
      rewrite collect_none; [reflexivity|].
      apply Forall_forall. intros te Hin. apply in_map_iff in Hin.
      destruct Hin as (e & <- & _). reflexivity.
    + rewrite LoggerTask_events. reflexivity.
    + rewrite SupervisorTask_events. reflexivity.
Qed.

(** * Further properties of the code *)

(** ** Who makes which call *)

Lemma exec_calls (sched : list TaskId) (s s' : Sys) :
  exec sched s = Some s' ->
  Forall (fun te => calls_of (fst te) (snd te) = true) (new_events s s').
Proof.
  revert sched s s'.
  apply (exec_ind_events (fun s _ tr s' =>
    Forall (fun te => calls_of (fst te) (snd te) = true) tr)).
  - constructor.
  - intros s t s1 sched tr s' Hstep _ IH.
    apply Forall_app. split; [|exact IH]. clear IH.
    destruct Hstep as [src H|item rest Hq Hm|item rest Hq|].
    + rewrite ScannerTask_events. repeat constructor.
    + rewrite CheckerTask_events.
      constructor; [reflexivity|]. constructor; [reflexivity|].
      apply Forall_app. split.
      * apply registry_reads_Forall. reflexivity.
      * repeat constructor.
    + rewrite LoggerTask_events. repeat constructor.
    + rewrite SupervisorTask_events. repeat constructor.
Qed.

(** X3. In any execution each kind of call comes from one task only, with
    the wait the source gives it: the event queue is written by
    [ScannerTask] alone (wait 50 ms) and read by [CheckerTask] alone
    (wait for ever); the log queue is written by [CheckerTask] alone (wait
    50 ms) and read by [LoggerTask] alone; the mutex, the registry and the
    watchdog refresh are [CheckerTask]'s alone; only [LoggerTask] prints;
    and the sleeps are 500 ms for [ScannerTask], 5 ms for [CheckerTask] and
    1000 ms for [SupervisorTask]. *)
Theorem each_call_has_one_caller (sched : list TaskId) (s s' : Sys) :
  exec sched s = Some s' ->
  forall (t : TaskId) (e : Event),
    In (t, e) (new_events s s') ->
    match e with
    | QueueSend_ssid _ w _ => t = Scanner /\ w = pdMS_TO_TICKS 50
    | QueueReceive_ssid _ w => t = Checker /\ w = portMAX_DELAY
    | QueueSend_log _ w _ => t = Checker /\ w = pdMS_TO_TICKS 50
    | QueueReceive_log _ w => t = Logger /\ w = portMAX_DELAY
    | SemaphoreTake w => t = Checker /\ w = portMAX_DELAY
    | SemaphoreGive | RegistryRead _ _ | WdtReset => t = Checker
    | Printf _ => t = Logger
    | TaskDelay d =>
        (t = Scanner /\ d = pdMS_TO_TICKS 500) \/
        (t = Checker /\ d = pdMS_TO_TICKS 5) \/
        (t = Supervisor /\ d = pdMS_TO_TICKS 1000)
    | TaskCreated _ | WdtInit _ _ | WdtAdd => False
    end.
Proof.
  intros Hexec t e Hin.
  assert (H := proj1 (Forall_forall _ _) (exec_calls _ _ _ Hexec) _ Hin).
  cbn [fst snd] in H.
  destruct t, e; cbn [calls_of] in H; try discriminate; auto;
    repeat match goal with
    | H : is_ms _ ?w = true |- _ =>
        destruct w; cbn [is_ms] in H;
        [apply Z.eqb_eq in H; subst | discriminate]
    | H : is_forever ?w = true |- _ =>
        destruct w; cbn [is_forever] in H; [discriminate | clear H]
    end; auto.
Qed.

Lemma each_call_has_one_caller_witness :
  (Scanner = Scanner /\ pdMS_TO_TICKS 500 = pdMS_TO_TICKS 500) \/
  (Scanner = Checker /\ pdMS_TO_TICKS 500 = pdMS_TO_TICKS 5) \/
  (Scanner = Supervisor /\ pdMS_TO_TICKS 500 = pdMS_TO_TICKS 1000).
Proof.
  apply (each_call_has_one_caller
           [Scanner; Checker; Logger; Supervisor]
           (boot (mkGarbage [] [] [] []))
           (match exec [Scanner; Checker; Logger; Supervisor]
                    (boot (mkGarbage [] [] [] [])) with
            | Some s' => s'
            | None => boot (mkGarbage [] [] [] [])
            end)
           ltac:(vm_compute; reflexivity)
           Scanner (TaskDelay (pdMS_TO_TICKS 500))).
  vm_compute. right. left. reflexivity.
Defined.

(** ** The watchdog registrations *)

Lemma calls_no_registration (tr : list (TaskId * Event)) :
  Forall (fun te => calls_of (fst te) (snd te) = true) tr ->
  wdt_adds tr = [] /\ Forall (fun t => t = Checker) (wdt_reset_tasks tr).
Proof.
  unfold wdt_adds, wdt_reset_tasks.
  induction 1 as [|[t e] tr Hte _ (IH1 & IH2)]; [split; constructor|].
  rewrite !collect_cons. cbn [fst snd] in *.
  destruct e; try (split; assumption).
  - destruct t; discriminate.
  - destruct t; try discriminate. split; [assumption | now constructor].
Qed.

Lemma boot_trace (g : Garbage) :
  wdt_adds (trace (boot g)) = [Main; Checker] /\
  wdt_reset_tasks (trace (boot g)) = [].
Proof. split; reflexivity. Qed.

(** X4. In every execution from start-up the watchdog has two registered
    tasks, the main task ([app_main]) and [CheckerTask], and every refresh
    is made by [CheckerTask]: the registration of the main task is never
    refreshed, and no other task ever registers. *)
Theorem watchdog_registrations (g : Garbage) (sched : list TaskId) (s : Sys) :
  exec sched (boot g) = Some s ->
  wdt_adds (trace s) = [Main; Checker] /\
  Forall (fun t => t = Checker) (wdt_reset_tasks (trace s)).
Proof.
  intros Hexec.
  destruct (calls_no_registration _ (exec_calls _ _ _ Hexec)) as (Ha & Hr).
  destruct (boot_trace g) as (Hba & Hbr).
  rewrite (exec_trace _ _ _ Hexec).
  unfold wdt_adds, wdt_reset_tasks in *.
  rewrite !collect_app, Ha, Hba, Hbr. cbn [app].
  split; [reflexivity | exact Hr].
Qed.

Lemma watchdog_registrations_witness :
  let g := mkGarbage [] [] [] [] in
  let sched := [Scanner; Checker; Supervisor; Scanner; Checker; Logger] in
  let s := match exec sched (boot g) with Some s => s | None => boot g end in
  wdt_adds (trace s) = [Main; Checker] /\
  Forall (fun t => t = Checker) (wdt_reset_tasks (trace s)).
Proof.
  intros g sched s.
  apply (watchdog_registrations g sched s).
  vm_compute. reflexivity.
Defined.

(** ** The queues stay within their capacity *)

Lemma queue_send_capacity {T : Type} (q : Queue T) (item : T) :
  within_capacity q ->
  within_capacity (fst (queue_send q item)) /\
  uxLength (fst (queue_send q item)) = uxLength q.
Proof.
  unfold within_capacity, queue_send, queue_full. intros H.
  destruct (Nat.leb_spec (uxLength q) (List.length (items q))); cbn.
  - auto.
  - rewrite length_app. cbn. split; [lia | reflexivity].
Qed.

Lemma step_capacity (s : Sys) (t : TaskId) (s' : Sys) :
  step s t s' ->
  within_capacity (ssidQueue s) -> within_capacity (logQueue s) ->
  within_capacity (ssidQueue s') /\ within_capacity (logQueue s') /\
  uxLength (ssidQueue s') = uxLength (ssidQueue s) /\
  uxLength (logQueue s') = uxLength (logQueue s).
Proof.
  intros [src H|item rest Hq Hm|item rest Hq|] Hs Hl.
  - change (ssidQueue (ScannerTask_after src (set_pxCurrentTCB Scanner s)))
      with (fst (queue_send (ssidQueue s) (mkSSID (strncpy src SSID_SIZE)))).
    change (logQueue (ScannerTask_after src (set_pxCurrentTCB Scanner s)))
      with (logQueue s).
    destruct (queue_send_capacity (ssidQueue s)
                (mkSSID (strncpy src SSID_SIZE)) Hs). auto.
  - change (ssidQueue (CheckerTask_after item rest (set_pxCurrentTCB Checker s)))
      with (mkQueue (uxLength (ssidQueue s)) rest).
    change (logQueue (CheckerTask_after item rest (set_pxCurrentTCB Checker s)))
      with (fst (queue_send (logQueue s)
                   (CheckerLocals.logMsg
                      (CheckerTask_classify item (checker s))))).
    destruct (queue_send_capacity (logQueue s)
                (CheckerLocals.logMsg (CheckerTask_classify item (checker s)))
                Hl).
    unfold within_capacity in *. rewrite Hq in Hs. cbn in *.
    repeat split; auto; lia.
  - change (ssidQueue (LoggerTask_after item rest (set_pxCurrentTCB Logger s)))
      with (ssidQueue s).
    change (logQueue (LoggerTask_after item rest (set_pxCurrentTCB Logger s)))
      with (mkQueue (uxLength (logQueue s)) rest).
    unfold within_capacity in *. rewrite Hq in Hl. cbn in *.
    repeat split; auto; lia.
  - auto.
Qed.

Lemma exec_capacity (sched : list TaskId) : forall (s s' : Sys),
  within_capacity (ssidQueue s) -> within_capacity (logQueue s) ->
  exec sched s = Some s' ->
  within_capacity (ssidQueue s') /\ within_capacity (logQueue s') /\
  uxLength (ssidQueue s') = uxLength (ssidQueue s) /\
  uxLength (logQueue s') = uxLength (logQueue s).
Proof.
  induction sched as [|t sched IH]; intros s s' Hs Hl Hexec.
  - inversion Hexec; subst. auto.
  - apply exec_cons in Hexec. destruct Hexec as (s1 & Hstep & Hexec).
    destruct (step_capacity _ _ _ Hstep Hs Hl) as (Hs1 & Hl1 & Es & El).
    destruct (IH _ _ Hs1 Hl1 Hexec) as (Hs' & Hl' & Es' & El').
    repeat split; auto; congruence.
Qed.

(** X1. The queues are bounded. In every execution from start-up the event
    queue never holds more than [SSID_QUEUE_SIZE] = 10 events and the log
    queue never more than [LOG_QUEUE_SIZE] = 10 records, however the tasks
    are interleaved and however long [CheckerTask] or [LoggerTask] stay
    away; the capacities [app_main] gave do not change. *)
Theorem queues_are_bounded (g : Garbage) (sched : list TaskId) (s : Sys) :
  exec sched (boot g) = Some s ->
  (List.length (items (ssidQueue s)) <= SSID_QUEUE_SIZE)%nat /\
  (List.length (items (logQueue s)) <= LOG_QUEUE_SIZE)%nat /\
  uxLength (ssidQueue s) = SSID_QUEUE_SIZE /\
  uxLength (logQueue s) = LOG_QUEUE_SIZE.
Proof.
  intros Hexec.
  destruct (exec_capacity sched (boot g) s) as (Hs & Hl & Es & El).
  - unfold within_capacity. cbn. lia.
  - unfold within_capacity. cbn. lia.
  - exact Hexec.
  - unfold within_capacity in *.
    change (uxLength (ssidQueue (boot g))) with SSID_QUEUE_SIZE in Es.
    change (uxLength (logQueue (boot g))) with LOG_QUEUE_SIZE in El.
    rewrite Es in Hs. rewrite El in Hl. auto.
Qed.

Lemma queues_are_bounded_witness :
  let g := mkGarbage [] [] [] [] in
  let sched := repeat Scanner 12 ++ [Checker; Checker; Scanner] in
  let s := match exec sched (boot g) with Some s => s | None => boot g end in
  (List.length (items (ssidQueue s)) <= SSID_QUEUE_SIZE)%nat /\
  (List.length (items (logQueue s)) <= LOG_QUEUE_SIZE)%nat /\
  uxLength (ssidQueue s) = SSID_QUEUE_SIZE /\
  uxLength (logQueue s) = LOG_QUEUE_SIZE.
Proof.
  intros g sched s.
  apply (queues_are_bounded g sched s).
  vm_compute. reflexivity.
Defined.

(** ** What [LoggerTask] prints *)

Lemma exec_printed (sched : list TaskId) (s s' : Sys) :
  exec sched s = Some s' ->
  printed (new_events s s') = map line (received_logs (new_events s s')) /\
  List.length (printed (new_events s s')) = cycles Logger sched.
Proof.
  revert sched s s'.
  apply (exec_ind_events (fun s sched tr s' =>
    printed tr = map line (received_logs tr) /\
    List.length (printed tr) = cycles Logger sched)).
  - intros s. now cbn.
  - intros s t s1 sched tr s' Hstep _ (IH1 & IH2).
    unfold printed, received_logs, cycles in *.
    destruct Hstep as [src H|item rest Hq Hm|item rest Hq|].
    + rewrite ScannerTask_events. simpl_collect. cbn. auto.
    + rewrite CheckerTask_events. simpl_collect. cbn. auto.
    + rewrite LoggerTask_events. simpl_collect.
      cbn [map filter TaskId_eqb List.length].
      split; [now rewrite IH1 | now rewrite IH2].
    + rewrite SupervisorTask_events. simpl_collect. cbn. auto.
Qed.

(** X2. [LoggerTask] prints what it is sent, in the order it was sent. In
    any execution the lines printed are, one per iteration of [LoggerTask]
    and in order, the strings of the records taken from the log queue, each
    followed by a newline and nothing else (the bytes a record buffer holds
    after its terminator are not printed); and the records taken are the
    oldest of those that were in the queue or entered it. On an empty log
    queue [LoggerTask] does not run and prints nothing; on a record it
    runs, takes the record at the head, and prints it. *)
Theorem LoggerTask_prints_in_order (sched : list TaskId) (s s' : Sys) :
  exec sched s = Some s' ->
  printed (new_events s s') = map line (received_logs (new_events s s')) /\
  List.length (printed (new_events s s')) = cycles Logger sched /\
  items (logQueue s) ++ enqueued_logs (new_events s s') =
    received_logs (new_events s s') ++ items (logQueue s') /\
  (items (logQueue s') = [] -> final (dispatch Logger s') = None) /\
  (forall (item : LogMessage_t) (rest : list LogMessage_t),
      items (logQueue s') = item :: rest ->
      exists s'' : Sys,
        final (dispatch Logger s') = Some s'' /\
        new_events s' s'' =
          [ (Logger, QueueReceive_log item portMAX_DELAY);
            (Logger, Printf (c_str (message item) ++ [x0a])) ] /\
        items (logQueue s'') = rest /\
        LoggerLocals.logMsg (logger s'') = item).
Proof.
  intros Hexec.
  destruct (exec_printed _ _ _ Hexec) as (Hp & Hn).
  split; [exact Hp|]. split; [exact Hn|].
  split; [now apply (exec_fifo_log sched)|]. split.
  - intros Hq. rewrite dispatch_eq. cbn [task_cycle].
    now rewrite LoggerTask_cycle_blocked.
  - intros item rest Hq. eexists. split.
    + apply dispatch_step. now apply (step_Logger s' item rest).
    + split; [apply LoggerTask_events|]. split; reflexivity.
Qed.

Lemma LoggerTask_prints_in_order_witness :
  let g := mkGarbage [] [] [] [] in
  let sched := [Scanner; Scanner; Checker; Checker; Logger; Scanner] in
  let s' := match exec sched (boot g) with Some s' => s' | None => boot g end in
  printed (new_events (boot g) s')
    = map line (received_logs (new_events (boot g) s')) /\
  List.length (printed (new_events (boot g) s')) = cycles Logger sched /\
  items (logQueue (boot g)) ++ enqueued_logs (new_events (boot g) s') =
    received_logs (new_events (boot g) s') ++ items (logQueue s') /\
  (items (logQueue s') = [] -> final (dispatch Logger s') = None) /\
  (forall (item : LogMessage_t) (rest : list LogMessage_t),
      items (logQueue s') = item :: rest ->
      exists s'' : Sys,
        final (dispatch Logger s') = Some s'' /\
        new_events s' s'' =
          [ (Logger, QueueReceive_log item portMAX_DELAY);
            (Logger, Printf (c_str (message item) ++ [x0a])) ] /\
        items (logQueue s'') = rest /\
        LoggerLocals.logMsg (logger s'') = item).
Proof.
  intros g sched s'.
  apply (LoggerTask_prints_in_order sched (boot g) s').
  vm_compute. reflexivity.
Defined.

(** ** The lookup changes nothing and depends on nothing *)

(** X5. A call of [is_secure_network] leaves the program as it found it:
    both queues, the locals of every task and the running task are
    unchanged and the mutex is free again, only the history grew. Its
    answer depends on the identifier alone: any other call on the same
    identifier, in any state where the mutex is free, returns the same
    value, and so does a second call made right after the first. *)
Theorem is_secure_network_is_pure (p : list byte) (s : Sys) :
  secureListMutex s = None ->
  exists (r : Z) (s' : Sys),
    is_secure_network p s = Some (r, s') /\
    ssidQueue s' = ssidQueue s /\
    logQueue s' = logQueue s /\
    secureListMutex s' = secureListMutex s /\
    pxCurrentTCB s' = pxCurrentTCB s /\
    scanner s' = scanner s /\
    checker s' = checker s /\
    logger s' = logger s /\
    option_map fst (is_secure_network p s') = Some r /\
    (forall s2 : Sys,
        secureListMutex s2 = None ->
        option_map fst (is_secure_network p s2) = Some r) /\
    (forall q : list byte,
        c_str q = c_str p ->
        option_map fst (is_secure_network q s) = Some r).
Proof.
  intros Hfree. rewrite (is_secure_network_run p s Hfree).
  eexists. eexists. split; [reflexivity|].
  repeat (split; [reflexivity|]).
  split; [|split].
  - rewrite is_secure_network_run by exact Hfree. reflexivity.
  - intros s2 H2. rewrite is_secure_network_run by exact H2. reflexivity.
  - intros q Hq. rewrite is_secure_network_run by exact Hfree.
    cbn [option_map fst].
    rewrite !existsb_matches. unfold authorized. now rewrite Hq.
Qed.

Lemma is_secure_network_is_pure_witness :
  let s := boot (mkGarbage [] [] [] []) in
  let p := lit "OfficeNet" in
  exists (r : Z) (s' : Sys),
    is_secure_network p s = Some (r, s') /\
    ssidQueue s' = ssidQueue s /\
    logQueue s' = logQueue s /\
    secureListMutex s' = secureListMutex s /\
    pxCurrentTCB s' = pxCurrentTCB s /\
    scanner s' = scanner s /\
    checker s' = checker s /\
    logger s' = logger s /\
    option_map fst (is_secure_network p s') = Some r /\
    (forall s2 : Sys,
        secureListMutex s2 = None ->
        option_map fst (is_secure_network p s2) = Some r) /\
    (forall q : list byte,
        c_str q = c_str p ->
        option_map fst (is_secure_network q s) = Some r).
Proof.
  intros s p. apply (is_secure_network_is_pure p s). reflexivity.
Defined.

(** ** Identifiers arrive intact *)

Lemma exec_intact (g : Garbage) (sched : list TaskId) (s : Sys) :
  exec sched (boot g) = Some s ->
  Z.of_nat (cycles Scanner sched) <= INT_MAX ->
  Forall (fun e => In (c_str (ssid e)) demoSSIDs /\
                   well_formed SSID_SIZE (ssid e))
    (received_ssids (new_events (boot g) s) ++ items (ssidQueue s)).
Proof.
  intros Hexec Hmax. rewrite <- (exec_fifo_ssid _ _ _ Hexec).
  change (items (ssidQueue (boot g))) with (@nil SSID_t). cbn [app].
  rewrite enqueued_ssids_sends. apply Forall_forall. intros e He.
  apply in_map_iff in He. destruct He as (ir & <- & Hir).
  apply filter_In in Hir. destruct Hir as (Hir & _).
  assert (Hs : In (fst ir) (map fst (scanner_sends (new_events (boot g) s))))
    by now apply in_map.
  rewrite (proj1 (exec_scanner _ _ _ Hexec)), boot_idx in Hs.
  refine (proj1 (Forall_forall _ _)
            (ScannerTask_items_intact _ (cycles Scanner sched) 0 _) _ Hs).
  unfold INT_MAX in *. cbn [Nat.add]. lia.
Qed.

(** X6. What [CheckerTask] reads is what [ScannerTask] copied. In every
    execution from start-up in which [ScannerTask] runs at most 2^31 - 1
    iterations (its index does not overflow), each event [CheckerTask] has
    received and each event still waiting in the event queue is a 32-byte
    array holding a terminated string, and that string is, whole, one of
    the six identifiers of [demoSSIDs]: [strncpy] with the size of the
    array cuts none of them and the queue alters none. *)
Theorem identifiers_arrive_intact (g : Garbage) (sched : list TaskId)
    (s : Sys) :
  exec sched (boot g) = Some s ->
  Z.of_nat (cycles Scanner sched) <= INT_MAX ->
  Forall (fun e => In (c_str (ssid e)) demoSSIDs /\
                   well_formed SSID_SIZE (ssid e))
    (received_ssids (new_events (boot g) s) ++ items (ssidQueue s)).
Proof. apply exec_intact. Qed.

Lemma identifiers_arrive_intact_witness :
  let g := mkGarbage (lit "junk") (lit "junk") [] [] in
  let sched := [Scanner; Scanner; Checker; Scanner] in
  let s := match exec sched (boot g) with Some s => s | None => boot g end in
  Forall (fun e => In (c_str (ssid e)) demoSSIDs /\
                   well_formed SSID_SIZE (ssid e))
    (received_ssids (new_events (boot g) s) ++ items (ssidQueue s)).
Proof.
  intros g sched s.
  apply (identifiers_arrive_intact g sched s).
  - vm_compute. reflexivity.
  - vm_compute. discriminate.
Defined.

(** ** The lines of the log *)

Lemma CheckerTask_records_Forall (Q : SSID_t -> Prop)
    (P : LogMessage_t -> Prop) :
  (forall e l, Q e -> P (CheckerLocals.logMsg (CheckerTask_classify e l))) ->
  forall (evs : list SSID_t) (l : CheckerLocals.t),
    Forall Q evs -> Forall P (CheckerTask_records l evs).
Proof.
  intros H evs. induction evs as [|e evs IH]; intros l Hq;
    cbn [CheckerTask_records]; [constructor|].
  inversion Hq; subst. constructor; [now apply H | now apply IH].
Qed.

Lemma classify_demo (e : SSID_t) (l : CheckerLocals.t) :
  In (c_str (ssid e)) demoSSIDs /\ well_formed SSID_SIZE (ssid e) ->
  log_text_of_demo
    (record_text (CheckerLocals.logMsg (CheckerTask_classify e l))).
Proof.
  intros (Hin & Hwf). destruct Hwf as (_ & Hlt & _).
  rewrite record_text_whole by lia.
  exists (c_str (ssid e)). split; [exact Hin|].
  unfold ok_text, alert_text. rewrite c_str_idem.
  destruct (authorized (ssid e)) eqn:E.
  - left. split; [now apply authorized_iff | reflexivity].
  - right. split.
    + intros H. apply authorized_iff in H. congruence.
    + eexists. reflexivity.
Qed.

(** X7. No false alert and no missed alert reach the log. In every
    execution from start-up in which [ScannerTask] runs at most 2^31 - 1
    iterations (its index does not overflow), each line [LoggerTask] has
    printed is either the OK text of a demonstration identifier that is in
    the registry or an ALERTA text, with some count, of a demonstration
    identifier that is not, followed by a newline; the text is whole (never
    cut at the 127 characters of the record buffer), and the same holds of
    every record still waiting in the log queue. *)
Theorem log_lines_are_right (g : Garbage) (sched : list TaskId) (s : Sys) :
  exec sched (boot g) = Some s ->
  Z.of_nat (cycles Scanner sched) <= INT_MAX ->
  Forall (fun out => exists text : list byte,
                       out = text ++ [x0a] /\ log_text_of_demo text)
    (printed (new_events (boot g) s)) /\
  Forall (fun m => log_text_of_demo (record_text m)) (items (logQueue s)).
Proof.
  intros Hexec Hmax.
  assert (Hrecs :
    Forall (fun m => log_text_of_demo (record_text m))
      (map fst (checker_sends (new_events (boot g) s)))).
  { rewrite (proj1 (exec_checker _ _ _ Hexec)).
    apply (CheckerTask_records_Forall
             (fun e => In (c_str (ssid e)) demoSSIDs /\
                       well_formed SSID_SIZE (ssid e))).
    - intros e l He. now apply classify_demo.
    - assert (H := exec_intact _ _ _ Hexec Hmax).
      apply Forall_app in H. apply H. }
  assert (Henq :
    Forall (fun m => log_text_of_demo (record_text m))
      (received_logs (new_events (boot g) s) ++ items (logQueue s))).
  { rewrite <- (exec_fifo_log _ _ _ Hexec).
    change (items (logQueue (boot g))) with (@nil LogMessage_t). cbn [app].
    rewrite enqueued_logs_sends. apply Forall_forall. intros m Hm.
    apply in_map_iff in Hm. destruct Hm as (mr & <- & Hmr).
    apply filter_In in Hmr. destruct Hmr as (Hmr & _).
    apply (proj1 (Forall_forall _ _) Hrecs). now apply in_map. }
  apply Forall_app in Henq. destruct Henq as (Hrecv & Hwait).
  split; [|exact Hwait].
  rewrite (proj1 (exec_printed _ _ _ Hexec)).
  apply Forall_forall. intros out Hout. apply in_map_iff in Hout.
  destruct Hout as (m & <- & Hm). exists (record_text m).
  split; [reflexivity|]. exact (proj1 (Forall_forall _ _) Hrecv _ Hm).
Qed.

Lemma log_lines_are_right_witness :
  let g := mkGarbage [] [] (lit "old bytes") [] in
  let sched :=
    [Scanner; Scanner; Checker; Logger; Checker; Scanner; Logger; Checker] in
  let s := match exec sched (boot g) with Some s => s | None => boot g end in
  Forall (fun out => exists text : list byte,
                       out = text ++ [x0a] /\ log_text_of_demo text)
    (printed (new_events (boot g) s)) /\
  Forall (fun m => log_text_of_demo (record_text m)) (items (logQueue s)).
Proof.
  intros g sched s.
  apply (log_lines_are_right g sched s).
  - vm_compute. reflexivity.
  - vm_compute. discriminate.
Defined.

(** ** Without a consumer *)

Lemma exec_no_consumer (sched : list TaskId) (s s' : Sys) :
  exec sched s = Some s' ->
  within_capacity (ssidQueue s) ->
  cycles Checker sched = 0%nat ->
  items (ssidQueue s') =
  firstn (uxLength (ssidQueue s))
    (items (ssidQueue s) ++ map fst (scanner_sends (new_events s s'))).
Proof.
  revert sched s s'.
  apply (exec_ind_events (fun s sched tr s' =>
    within_capacity (ssidQueue s) ->
    cycles Checker sched = 0%nat ->
    items (ssidQueue s') =
    firstn (uxLength (ssidQueue s))
      (items (ssidQueue s) ++ map fst (scanner_sends tr)))).
  - intros s Hcap _. cbn. rewrite app_nil_r. symmetry.
    now apply firstn_all2.
  - intros s t s1 sched tr s' Hstep _ IH Hcap Hc.
    unfold scanner_sends, cycles in *.
    destruct Hstep as [src H|item rest Hq Hm|item rest Hq|].
    + rewrite ScannerTask_events. simpl_collect. cbn [map fst].
      cbn [filter TaskId_eqb] in Hc.
      change (ssidQueue (ScannerTask_after src (set_pxCurrentTCB Scanner s)))
        with (fst (queue_send (ssidQueue s) (mkSSID (strncpy src SSID_SIZE))))
        in IH.
      destruct (queue_send_capacity (ssidQueue s)
                  (mkSSID (strncpy src SSID_SIZE)) Hcap) as (Hcap1 & Hux).
      rewrite (IH Hcap1 Hc), Hux. clear IH.
      unfold queue_send, queue_full, within_capacity in *.
      destruct (Nat.leb_spec (uxLength (ssidQueue s))
                  (List.length (items (ssidQueue s)))); cbn [fst items].
      * assert (E : List.length (items (ssidQueue s)) = uxLength (ssidQueue s))
          by lia.
        now rewrite !(firstn_full _ _ _ E).
      * now rewrite <- app_assoc.
    + cbn in Hc. discriminate.
    + rewrite LoggerTask_events. simpl_collect. now apply IH.
    + rewrite SupervisorTask_events. simpl_collect. now apply IH.
Qed.

(** X8. A full event queue keeps the oldest events. In any execution in
    which [CheckerTask] does not run (it is starved or blocked), the event
    queue ends with its events of before followed by the events
    [ScannerTask] built since, in order, up to the capacity of the queue:
    the events built once the queue is full are lost, none is offered
    again later, and none displaces an older one. From start-up, that is
    the first ten events of the demonstration sequence. *)
Theorem full_queue_keeps_oldest (sched : list TaskId) (s s' : Sys) :
  exec sched s = Some s' ->
  within_capacity (ssidQueue s) ->
  cycles Checker sched = 0%nat ->
  items (ssidQueue s') =
    firstn (uxLength (ssidQueue s))
      (items (ssidQueue s) ++ map fst (scanner_sends (new_events s s'))) /\
  map fst (scanner_sends (new_events s s')) =
    ScannerTask_items (ScannerLocals.stray (scanner s))
      (ScannerLocals.idx (scanner s)) (cycles Scanner sched) /\
  List.length (scanner_sends (new_events s s')) = cycles Scanner sched.
Proof.
  intros Hexec Hcap Hc.
  split; [now apply (exec_no_consumer sched)|].
  destruct (exec_scanner _ _ _ Hexec) as (H1 & H2 & _). auto.
Qed.

Lemma full_queue_keeps_oldest_witness :
  let g := mkGarbage [] [] [] [] in
  let sched := repeat Scanner 7 ++ [Supervisor] ++ repeat Scanner 6 in
  let s' := match exec sched (boot g) with Some s' => s' | None => boot g end in
  items (ssidQueue s') =
    firstn (uxLength (ssidQueue (boot g)))
      (items (ssidQueue (boot g))
       ++ map fst (scanner_sends (new_events (boot g) s'))) /\
  map fst (scanner_sends (new_events (boot g) s')) =
    ScannerTask_items (ScannerLocals.stray (scanner (boot g)))
      (ScannerLocals.idx (scanner (boot g))) (cycles Scanner sched) /\
  List.length (scanner_sends (new_events (boot g) s')) = cycles Scanner sched.
Proof.
  intros g sched s'.
  apply (full_queue_keeps_oldest sched (boot g) s').
  - vm_compute. reflexivity.
  - unfold within_capacity. cbn. lia.
  - reflexivity.
Defined.

Example full_queue_at_boot :
  option_map (fun s => map (fun e => c_str (ssid e)) (items (ssidQueue s)))
    (exec (repeat Scanner 13) (boot (mkGarbage [] [] [] [])))
  = Some [ lit "IoT_Secure"; lit "EvilTwin"; lit "RandomAP";
           lit "LabNet_Protected"; lit "Unknown_AP"; lit "HomeNet_5G";
           lit "IoT_Secure"; lit "EvilTwin"; lit "RandomAP";
           lit "LabNet_Protected" ].
Proof. vm_compute. reflexivity. Qed.

(** ** Round-robin scheduling *)

Lemma cycles_rounds (n : nat) :
  cycles Scanner (List.concat (repeat round n)) = n /\
  cycles Checker (List.concat (repeat round n)) = n /\
  cycles Logger (List.concat (repeat round n)) = n.
Proof.
  induction n as [|n (IH1 & IH2 & IH3)]; [now cbn|].
  cbn [repeat List.concat]. rewrite !cycles_app, IH1, IH2, IH3. now cbn.
Qed.

(** One round from an idle pipeline: nothing is dropped and the pipeline
    is idle again. *)
Lemma round_runs (s : Sys) (a : nat) :
  pipeline_idle s ->
  ScannerLocals.idx (scanner s) = Z.of_nat a ->
  Z.of_nat a < INT_MAX ->
  exists s' : Sys,
    exec round s = Some s' /\
    pipeline_idle s' /\
    ScannerLocals.idx (scanner s') = Z.of_nat (S a) /\
    Forall (fun ir => snd ir = pdPASS) (scanner_sends (new_events s s')) /\
    Forall (fun mr => snd mr = pdPASS) (checker_sends (new_events s s')).
Proof.
  intros (Hsq & Hlq & Hsux & Hlux & Hfree) Hidx Ha.
  set (src := nth (a mod 6) demoSSIDs []).
  set (item := mkSSID (strncpy src SSID_SIZE)).
  (* ScannerTask *)
  assert (Hstep1 : step s Scanner
                     (ScannerTask_after src (set_pxCurrentTCB Scanner s))).
  { constructor. rewrite Hidx. apply demoSSIDs_at_index. }
  assert (Hev1 := ScannerTask_events src s).
  fold item in Hev1. rewrite (queue_send_empty _ item Hsq Hsux) in Hev1.
  cbn [snd] in Hev1.
  assert (Hq1 : ssidQueue (ScannerTask_after src (set_pxCurrentTCB Scanner s))
                = mkQueue (uxLength (ssidQueue s)) [item]).
  { change (ssidQueue (ScannerTask_after src (set_pxCurrentTCB Scanner s)))
      with (fst (queue_send (ssidQueue s) item)).
    now rewrite (queue_send_empty _ item Hsq Hsux). }
  assert (Hi1 : ScannerLocals.idx
                  (scanner (ScannerTask_after src (set_pxCurrentTCB Scanner s)))
                = Z.of_nat (S a)).
  { change (ScannerLocals.idx
              (scanner (ScannerTask_after src (set_pxCurrentTCB Scanner s))))
      with (int_incr (ScannerLocals.idx (scanner s))).
    rewrite Hidx, int_incr_small by (unfold INT_MIN, INT_MAX in *; lia). lia. }
  assert (Hl1 : logQueue (ScannerTask_after src (set_pxCurrentTCB Scanner s))
                = logQueue s) by reflexivity.
  assert (Hm1 := step_mutex _ _ _ Hstep1). rewrite Hfree in Hm1.
  revert Hstep1 Hev1 Hq1 Hi1 Hl1 Hm1.
  generalize (ScannerTask_after src (set_pxCurrentTCB Scanner s)).
  intros s1 Hstep1 Hev1 Hq1 Hi1 Hl1 Hm1.
  (* CheckerTask *)
  assert (Hitems1 : items (ssidQueue s1) = item :: []) by now rewrite Hq1.
  assert (Hstep2 := step_Checker s1 item [] Hitems1 Hm1).
  assert (Hev2 := CheckerTask_events item [] s1).
  set (m := CheckerLocals.logMsg (CheckerTask_classify item (checker s1))) in *.
  assert (Hlq1 : items (logQueue s1) = []) by now rewrite Hl1.
  assert (Hlux1 : (0 < uxLength (logQueue s1))%nat) by now rewrite Hl1.
  rewrite (queue_send_empty _ m Hlq1 Hlux1) in Hev2. cbn [snd] in Hev2.
  assert (Hq2 : ssidQueue (CheckerTask_after item [] (set_pxCurrentTCB Checker s1))
                = mkQueue (uxLength (ssidQueue s1)) []) by reflexivity.
  assert (Hl2 : logQueue (CheckerTask_after item [] (set_pxCurrentTCB Checker s1))
                = mkQueue (uxLength (logQueue s1)) [m]).
  { change (logQueue (CheckerTask_after item [] (set_pxCurrentTCB Checker s1)))
      with (fst (queue_send (logQueue s1) m)).
    now rewrite (queue_send_empty _ m Hlq1 Hlux1). }
  assert (Hi2 : scanner (CheckerTask_after item [] (set_pxCurrentTCB Checker s1))
                = scanner s1) by reflexivity.
  assert (Hm2 := step_mutex _ _ _ Hstep2). rewrite Hm1 in Hm2.
  revert Hstep2 Hev2 Hq2 Hl2 Hi2 Hm2.
  generalize (CheckerTask_after item [] (set_pxCurrentTCB Checker s1)).
  intros s2 Hstep2 Hev2 Hq2 Hl2 Hi2 Hm2.
  (* LoggerTask *)
  assert (Hitems2 : items (logQueue s2) = m :: []) by now rewrite Hl2.
  assert (Hstep3 := step_Logger s2 m [] Hitems2).
  assert (Hev3 := LoggerTask_events m [] s2).
  assert (Hq3 : ssidQueue (LoggerTask_after m [] (set_pxCurrentTCB Logger s2))
                = ssidQueue s2) by reflexivity.
  assert (Hl3 : logQueue (LoggerTask_after m [] (set_pxCurrentTCB Logger s2))
                = mkQueue (uxLength (logQueue s2)) []) by reflexivity.
  assert (Hi3 : scanner (LoggerTask_after m [] (set_pxCurrentTCB Logger s2))
                = scanner s2) by reflexivity.
  assert (Hm3 := step_mutex _ _ _ Hstep3). rewrite Hm2 in Hm3.
  revert Hstep3 Hev3 Hq3 Hl3 Hi3 Hm3.
  generalize (LoggerTask_after m [] (set_pxCurrentTCB Logger s2)).
  intros s3 Hstep3 Hev3 Hq3 Hl3 Hi3 Hm3.
  (* the round *)
  assert (Hexec3 : exec [Logger] s2 = Some s3).
  { apply exec_cons. exists s3. split; [exact Hstep3 | reflexivity]. }
  assert (Hexec2 : exec [Checker; Logger] s1 = Some s3).
  { apply exec_cons. exists s2. split; [exact Hstep2 | exact Hexec3]. }
  assert (Hexec1 : exec round s = Some s3).
  { apply exec_cons. exists s1. split; [exact Hstep1 | exact Hexec2]. }
  exists s3. split; [exact Hexec1|]. split.
  { unfold pipeline_idle. rewrite Hq3, Hq2, Hl3, Hl2, Hq1, Hl1. cbn.
    repeat split; auto. }
  split; [now rewrite Hi3, Hi2|].
  rewrite (new_events_step _ _ _ _ _ Hstep1 Hexec2).
  rewrite (new_events_step _ _ _ _ _ Hstep2 Hexec3).
  rewrite (new_events_step _ _ _ _ _ Hstep3 (exec_nil s3)).
  rewrite new_events_refl, Hev1, Hev2, Hev3.
  unfold scanner_sends, checker_sends. simpl_collect.
  split; repeat constructor.
Qed.

Lemma rounds_run (n : nat) : forall (s : Sys) (a : nat),
  pipeline_idle s ->
  ScannerLocals.idx (scanner s) = Z.of_nat a ->
  Z.of_nat (a + n) <= INT_MAX ->
  exists s' : Sys,
    exec (List.concat (repeat round n)) s = Some s' /\
    pipeline_idle s' /\
    Forall (fun ir => snd ir = pdPASS) (scanner_sends (new_events s s')) /\
    Forall (fun mr => snd mr = pdPASS) (checker_sends (new_events s s')).
Proof.
  induction n as [|n IH]; intros s a Hidle Hidx Ha.
  - exists s. split; [reflexivity|]. split; [exact Hidle|].
    rewrite new_events_refl. split; constructor.
  - destruct (round_runs s a Hidle Hidx) as (s1 & He1 & Hidle1 & Hidx1 & Hs1 & Hc1).
    { lia. }
    destruct (IH s1 (S a) Hidle1 Hidx1) as (s' & He & Hidle' & Hs & Hc).
    { lia. }
    exists s'. cbn [repeat List.concat].
    split; [apply exec_app; eauto|]. split; [exact Hidle'|].
    rewrite (new_events_exec_app _ _ _ _ _ He1 He).
    unfold scanner_sends, checker_sends in *. rewrite !collect_app.
    split; apply Forall_app; auto.
Qed.

Lemma boot_idle (g : Garbage) : pipeline_idle (boot g).
Proof.
  unfold pipeline_idle. cbn.
  repeat split; unfold SSID_QUEUE_SIZE, LOG_QUEUE_SIZE; lia.
Qed.

(** X9. Under round-robin scheduling nothing is lost. Run the pipeline from
    start-up for [n] rounds of ScannerTask, CheckerTask, LoggerTask, [n] at
    most 2^31 - 1: the execution goes through, no send ever meets a full
    queue, both queues are empty at the end, and the [n] lines printed are,
    in order, the records of the first [n] events of the demonstration
    sequence. *)
Theorem round_robin_loses_nothing (g : Garbage) (n : nat) :
  Z.of_nat n <= INT_MAX ->
  exists s' : Sys,
    exec (List.concat (repeat round n)) (boot g) = Some s' /\
    items (ssidQueue s') = [] /\
    items (logQueue s') = [] /\
    Forall (fun ir => snd ir = pdPASS)
      (scanner_sends (new_events (boot g) s')) /\
    Forall (fun mr => snd mr = pdPASS)
      (checker_sends (new_events (boot g) s')) /\
    printed (new_events (boot g) s') =
      map line
        (CheckerTask_records (checker (boot g))
           (ScannerTask_items (scanner_stray g) 0 n)) /\
    List.length (printed (new_events (boot g) s')) = n.
Proof.
  intros Hn.
  destruct (rounds_run n (boot g) 0 (boot_idle g) eq_refl)
    as (s' & Hexec & (Hsq & Hlq & _) & Hs & Hc).
  { cbn [Nat.add]. exact Hn. }
  destruct (cycles_rounds n) as (Hcs & _ & Hcl).
  exists s'. split; [exact Hexec|]. split; [exact Hsq|]. split; [exact Hlq|].
  split; [exact Hs|]. split; [exact Hc|].
  destruct (exec_printed _ _ _ Hexec) as (Hp & Hpn).
  split; [|now rewrite Hpn, Hcl].
  rewrite Hp. f_equal.
  assert (Hfl := exec_fifo_log _ _ _ Hexec).
  rewrite Hlq, app_nil_r in Hfl.
  change (items (logQueue (boot g))) with (@nil LogMessage_t) in Hfl.
  cbn [app] in Hfl. rewrite <- Hfl, enqueued_logs_sends.
  rewrite filter_id by (revert Hc; apply Forall_impl; now intros mr ->).
  rewrite (proj1 (exec_checker _ _ _ Hexec)). f_equal.
  assert (Hfs := exec_fifo_ssid _ _ _ Hexec).
  rewrite Hsq, app_nil_r in Hfs.
  change (items (ssidQueue (boot g))) with (@nil SSID_t) in Hfs.
  cbn [app] in Hfs. rewrite <- Hfs, enqueued_ssids_sends.
  rewrite filter_id by (revert Hs; apply Forall_impl; now intros ir ->).
  rewrite (proj1 (exec_scanner _ _ _ Hexec)), Hcs. reflexivity.
Qed.

Lemma round_robin_loses_nothing_witness :
  let g := mkGarbage [] [] [] [] in
  exists s' : Sys,
    exec (List.concat (repeat round 4)) (boot g) = Some s' /\
    items (ssidQueue s') = [] /\
    items (logQueue s') = [] /\
    Forall (fun ir => snd ir = pdPASS)
      (scanner_sends (new_events (boot g) s')) /\
    Forall (fun mr => snd mr = pdPASS)
      (checker_sends (new_events (boot g) s')) /\
    printed (new_events (boot g) s') =
      map line
        (CheckerTask_records (checker (boot g))
           (ScannerTask_items (scanner_stray g) 0 4)) /\
    List.length (printed (new_events (boot g) s')) = 4%nat.
Proof.
  intros g. apply (round_robin_loses_nothing g 4).
  vm_compute. discriminate.
Defined.

(** The first four lines of the log under round-robin. *)
Example round_robin_log :
  option_map (fun s => printed (trace s))
    (exec (List.concat (repeat round 4)) (boot (mkGarbage [] [] [] [])))
  = Some
      [ OK_PREFIX ++ lit "IoT_Secure" ++ [x0a];
        ALERTA_PREFIX ++ lit "EvilTwin (cont=1)" ++ [x0a];
        ALERTA_PREFIX ++ lit "RandomAP (cont=2)" ++ [x0a];
        OK_PREFIX ++ lit "LabNet_Protected" ++ [x0a] ].
Proof. vm_compute. reflexivity. Qed.

(** ** Each task's variables are its own *)

Lemma step_private (s : Sys) (t : TaskId) (s' : Sys) :
  step s t s' ->
  (t <> Scanner -> scanner s' = scanner s) /\
  (t <> Checker -> checker s' = checker s) /\
  (t <> Logger -> logger s' = logger s).
Proof.
  intros [src H|item rest Hq Hm|item rest Hq|];
    repeat split; intros Hne; try reflexivity; congruence.
Qed.

Lemma cycles_cons_zero (t u : TaskId) (sched : list TaskId) :
  cycles t (u :: sched) = 0%nat -> u <> t /\ cycles t sched = 0%nat.
Proof.
  unfold cycles. cbn [filter].
  destruct t, u; cbn; intros H; try discriminate; split; congruence.
Qed.

Lemma exec_private (sched : list TaskId) : forall (s s' : Sys),
  exec sched s = Some s' ->
  (cycles Scanner sched = 0%nat -> scanner s' = scanner s) /\
  (cycles Checker sched = 0%nat -> checker s' = checker s) /\
  (cycles Logger sched = 0%nat -> logger s' = logger s).
Proof.
  induction sched as [|t sched IH]; intros s s' Hexec.
  - inversion Hexec; subst. auto.
  - apply exec_cons in Hexec. destruct Hexec as (s1 & Hstep & Hexec).
    destruct (step_private _ _ _ Hstep) as (P1 & P2 & P3).
    destruct (IH _ _ Hexec) as (I1 & I2 & I3).
    repeat split; intros Hc; apply cycles_cons_zero in Hc;
      destruct Hc as (Hne & Hc).
    + rewrite (I1 Hc). now apply P1.
    + rewrite (I2 Hc). now apply P2.
    + rewrite (I3 Hc). now apply P3.
Qed.

(** X10. Each task's variables are written by that task alone. Over any
    stretch of execution in which [CheckerTask] does not run, its locals
    are unchanged, the alert counter and the record buffer included,
    whatever the three other tasks do; likewise the index and the event
    buffer of [ScannerTask] change only when [ScannerTask] runs, and the
    record buffer of [LoggerTask] only when [LoggerTask] runs. A stretch
    without [ScannerTask] puts nothing in the event queue, one without
    [LoggerTask] prints nothing. *)
Theorem locals_are_private (sched : list TaskId) (s s' : Sys) :
  exec sched s = Some s' ->
  (cycles Scanner sched = 0%nat ->
   scanner s' = scanner s /\ enqueued_ssids (new_events s s') = []) /\
  (cycles Checker sched = 0%nat ->
   checker s' = checker s /\ received_ssids (new_events s s') = [] /\
   checker_sends (new_events s s') = []) /\
  (cycles Logger sched = 0%nat ->
   logger s' = logger s /\ printed (new_events s s') = []).
Proof.
  intros Hexec.
  destruct (exec_private _ _ _ Hexec) as (P1 & P2 & P3).
  split; [|split]; intros Hc.
  - split; [now apply P1|].
    destruct (exec_scanner _ _ _ Hexec) as (_ & Hlen & _).
    rewrite Hc in Hlen. apply length_zero_iff_nil in Hlen.
    now rewrite enqueued_ssids_sends, Hlen.
  - split; [now apply P2|].
    destruct (exec_checker _ _ _ Hexec) as (Hrecs & _ & Hlen).
    rewrite Hc in Hlen. apply length_zero_iff_nil in Hlen.
    split; [exact Hlen|].
    rewrite Hlen in Hrecs. cbn in Hrecs. now apply map_eq_nil in Hrecs.
  - split; [now apply P3|].
    destruct (exec_printed _ _ _ Hexec) as (_ & Hlen).
    rewrite Hc in Hlen. now apply length_zero_iff_nil in Hlen.
Qed.

Lemma locals_are_private_witness :
  let g := mkGarbage [] [] [] [] in
  let s :=
    match exec [Scanner; Scanner; Checker] (boot g) with
    | Some s => s
    | None => boot g
    end in
  let sched := [Scanner; Logger; Supervisor; Scanner] in
  let s' := match exec sched s with Some s' => s' | None => s end in
  (cycles Scanner sched = 0%nat ->
   scanner s' = scanner s /\ enqueued_ssids (new_events s s') = []) /\
  (cycles Checker sched = 0%nat ->
   checker s' = checker s /\ received_ssids (new_events s s') = [] /\
   checker_sends (new_events s s') = []) /\
  (cycles Logger sched = 0%nat ->
   logger s' = logger s /\ printed (new_events s s') = []).
Proof.
  intros g s sched s'.
  apply (locals_are_private sched s s').
  vm_compute. reflexivity.
Defined.

(** ** An alert that is dropped is still counted *)



(** The gap in the log: the alert raised while the log queue was full took
    the count 6 with it; the alerts that entered the queue carry 5 and
    then 7. *)
Example alert_counts_can_skip :
  option_map
    (fun s => map record_text (skipn 8 (enqueued_logs (trace s))))
    (exec (List.concat (repeat [Scanner; Checker] 10)
           ++ [Scanner; Checker; Logger; Scanner; Checker; Logger;
               Scanner; Checker; Logger; Scanner; Checker])
       (boot (mkGarbage [] [] [] [])))
  = Some [ ALERTA_PREFIX ++ lit "RandomAP (cont=5)";
           OK_PREFIX ++ lit "LabNet_Protected";
           OK_PREFIX ++ lit "HomeNet_5G";
           OK_PREFIX ++ lit "IoT_Secure";
           ALERTA_PREFIX ++ lit "EvilTwin (cont=7)" ].
Proof. vm_compute. reflexivity. Qed.
